(** * ifc-validator viewer: property resolution and ghost mode

    A shallow embedding of the data layer of [viewer/src/main.ts]:
    the attribute extractor [extractValue], the unit table
    [getQuantityUnit], the two formatters [formatQuantitySets] and
    [formatPropertySets], the per-element body of
    [updatePropertiesPanel], and the ghost-mode pair
    [setModelTransparent] / [restoreModelMaterials].

    Raw records are plain data as delivered by the model loader:
    undefined, null, booleans, numbers, strings, arrays and objects
    whose fields are data again (no functions, accessors or exotic
    prototypes).  A JavaScript object used as a map is a [gmap] from
    field names to values; enumeration of such an object is
    [map_to_list], so the insertion order of fields is abstracted
    away.  Numbers are IEEE-754 values in the representation of
    [SpecFloat]. *)

From Stdlib Require Import ZArith String List.
From Stdlib Require Import Floats.SpecFloat.
From stdpp Require Import gmap strings list fin_maps pretty.

Set Warnings "-register-all".
#[local] Open Scope string_scope.

(** ** JavaScript values *)

Module Js.

Abbreviation number := spec_float.

Inductive JsVal : Type :=
| JUndef
| JNull
| JBool (b : bool)
| JNum (n : number)
| JStr (s : string)
| JArr (l : list JsVal)
| JObj (m : gmap string JsVal).

(** The result of [typeof]; [typeof null] and [typeof []] are both
    ["object"]. *)
Inductive JsType := TyUndefined | TyObject | TyBoolean | TyNumber | TyString.

#[global] Instance JsType_eq_dec : EqDecision JsType.
Proof. solve_decision. Defined.

Definition typeof (v : JsVal) : JsType :=
  match v with
  | JUndef => TyUndefined
  | JNull | JArr _ | JObj _ => TyObject
  | JBool _ => TyBoolean
  | JNum _ => TyNumber
  | JStr _ => TyString
  end.

(** [+0], [-0] and [NaN] are the falsy numbers. *)
Definition num_falsy (n : number) : bool :=
  match n with
  | S754_zero _ | S754_nan => true
  | _ => false
  end.

(** ToBoolean, as used by [!x], [x || y], [x && y] and [if (x)]. *)
Definition truthy (v : JsVal) : bool :=
  match v with
  | JUndef | JNull => false
  | JBool b => b
  | JNum n => negb (num_falsy n)
  | JStr s => negb (String.eqb s "")
  | JArr _ | JObj _ => true
  end.

Definition is_null (v : JsVal) : bool :=
  match v with JNull => true | _ => false end.

Definition is_undefined (v : JsVal) : bool :=
  match v with JUndef => true | _ => false end.

Definition isArray (v : JsVal) : bool :=
  match v with JArr _ => true | _ => false end.

(** [v === "s"] for a string literal. *)
Definition str_is (s : string) (v : JsVal) : bool :=
  match v with JStr t => String.eqb t s | _ => false end.

(** [x || y] *)
Definition js_or (x y : JsVal) : JsVal := if truthy x then x else y.

(** [k in v] for an object operand.  Arrays own their indices and
    [length] only; the program asks for ["value"] and ["color"]. *)
Definition has_field (k : string) (v : JsVal) : bool :=
  match v with
  | JObj m => bool_decide (is_Some (m !! k))
  | _ => false
  end.

(** [v.k] for a value that is neither null nor undefined and a field
    name [k] that is no array index and not [length]: a missing field
    reads as undefined. *)
Definition prop (v : JsVal) (k : string) : JsVal :=
  match v with
  | JObj m => default JUndef (m !! k)
  | _ => JUndef
  end.

(** [v.k] where nothing guards [v]: reading a field of null or
    undefined raises a TypeError ([None]). *)
Definition prop_chk (v : JsVal) (k : string) : option JsVal :=
  match v with
  | JUndef | JNull => None
  | _ => Some (prop v k)
  end.

(** The characters of a string, one per byte of the Rocq string (for
    ASCII text these are the UTF-16 units JavaScript indexes). *)
Definition chars (s : string) : list JsVal :=
  (fun c => JStr (String c EmptyString)) <$> list_ascii_of_string s.

Definition indexed (l : list JsVal) : list (string * JsVal) :=
  imap (fun i v => (pretty i, v)) l.

(** [Object.entries(v)] for a value that is neither null nor
    undefined: own enumerable fields of an object, index/element pairs
    of an array, index/character pairs of a string, nothing for a
    number or boolean. *)
Definition entries (v : JsVal) : list (string * JsVal) :=
  match v with
  | JObj m => map_to_list m
  | JArr l => indexed l
  | JStr s => indexed (chars s)
  | _ => []
  end.

(** [s.includes(t)] on strings. *)
Fixpoint includes (s t : string) : bool :=
  String.prefix t s ||
  match s with
  | EmptyString => false
  | String _ s' => includes s' t
  end.

Definition obj (fs : list (string * JsVal)) : JsVal := JObj (list_to_map fs).

(** An attribute wrapper [{ value: v }]. *)
Definition wrap (v : JsVal) : JsVal := obj [("value", v)].

Definition zero : number := S754_zero false.
Definition neg_zero : number := S754_zero true.
(** 12.5 = 7036874417766400 * 2^-49 *)
Definition n12_5 : number := S754_finite false 7036874417766400 (-49).
(** the double nearest to 0.1 = 7205759403792794 * 2^-56 *)
Definition n0_1 : number := S754_finite false 7205759403792794 (-56).

End Js.

Import Js.

(** ** Attribute extractor (main.ts, [extractValue]) *)

Definition extractValue (attr : JsVal) : JsVal :=
  if negb (truthy attr) then JNull
  else if bool_decide (typeof attr = TyObject) && negb (is_null attr)
          && has_field "value" attr
  then prop attr "value"
  else if bool_decide (typeof attr = TyString)
          || bool_decide (typeof attr = TyNumber)
          || bool_decide (typeof attr = TyBoolean)
  then attr
  else JNull.

Definition is_scalar (v : JsVal) : bool :=
  match v with
  | JStr _ | JNum _ | JBool _ => true
  | _ => false
  end.

Definition str_of (v : JsVal) : string :=
  match v with JStr s => s | _ => "" end.

Definition num_of (v : JsVal) : number :=
  match v with JNum n => n | _ => S754_nan end.

Definition arr_of (v : JsVal) : list JsVal :=
  match v with JArr l => l | _ => [] end.

(** A [for ... of] loop whose body may raise: the first exception ends
    the loop and is the outcome. *)
Fixpoint for_of {A B : Type} (body : A → B → option A) (acc : A) (l : list B)
  : option A :=
  match l with
  | [] => Some acc
  | x :: l' => acc' ← body acc x; for_of body acc' l'
  end.

(** ** Quantity sets (main.ts, [getQuantityUnit], [formatQuantitySets]) *)

(** The keyword cascade of [getQuantityUnit], over the test
    [quantityType.includes(_)]. *)
Definition unit_of (inc : string → bool) : string :=
  if inc "Volume" then "m³"
  else if inc "Area" then "m²"
  else if inc "Length" || inc "Width" || inc "Height" || inc "Depth"
          || inc "Perimeter" then "m"
  else if inc "Weight" || inc "Mass" then "kg"
  else if inc "Count" then "ud"
  else if inc "Time" then "s"
  else "".

Definition getQuantityUnit (quantityType : string) : string :=
  unit_of (includes quantityType).

(** [getQuantityUnit(qObj.type)] as it runs: the argument is only known
    to be truthy.  A string answers [includes] by substring search, an
    array by membership; any other value has no [includes] method and
    the call raises a TypeError. *)
Definition getQuantityUnit_call (t : JsVal) : option string :=
  match t with
  | JStr s => Some (getQuantityUnit s)
  | JArr l => Some (unit_of (fun k => existsb (str_is k) l))
  | _ => None
  end.

Record Quantity := { q_value : number; q_unit : string }.

(** The if/else-if chain over the six value fields: the value read and
    the unit that goes with the field taken; [(null, "")] when no field
    is present. *)
Definition probe (qObj : JsVal) : JsVal * string :=
  if negb (is_undefined (prop qObj "LengthValue"))
  then (extractValue (prop qObj "LengthValue"), "m")
  else if negb (is_undefined (prop qObj "AreaValue"))
  then (extractValue (prop qObj "AreaValue"), "m²")
  else if negb (is_undefined (prop qObj "VolumeValue"))
  then (extractValue (prop qObj "VolumeValue"), "m³")
  else if negb (is_undefined (prop qObj "WeightValue"))
  then (extractValue (prop qObj "WeightValue"), "kg")
  else if negb (is_undefined (prop qObj "CountValue"))
  then (extractValue (prop qObj "CountValue"), "ud")
  else if negb (is_undefined (prop qObj "TimeValue"))
  then (extractValue (prop qObj "TimeValue"), "s")
  else (JNull, "").

(** Body of the loop over [psetObj.Quantities]. *)
Definition add_quantity (quantities : gmap string Quantity) (q : JsVal)
  : option (gmap string Quantity) :=
  if negb (truthy q) || negb (bool_decide (typeof q = TyObject))
  then Some quantities
  else
    let qName := extractValue (prop q "Name") in
    if negb (truthy qName) || negb (bool_decide (typeof qName = TyString))
    then Some quantities
    else
      let '(value, unit0) := probe q in
      unit1 ← (if is_null value && truthy (prop q "type")
               then getQuantityUnit_call (prop q "type")
               else Some unit0);
      if negb (is_null value) && bool_decide (typeof value = TyNumber)
      then Some (<[str_of qName := {| q_value := num_of value; q_unit := unit1 |}]>
                   quantities)
      else Some quantities.

(** Body of the loop over [rawPsets]. *)
Definition add_quantity_set (result : gmap string (gmap string Quantity))
    (pset : JsVal) : option (gmap string (gmap string Quantity)) :=
  if negb (truthy pset) || negb (bool_decide (typeof pset = TyObject))
  then Some result
  else if negb (str_is "IfcElementQuantity" (prop pset "type"))
  then Some result
  else
    let qsetName := extractValue (prop pset "Name") in
    if negb (truthy qsetName) || negb (bool_decide (typeof qsetName = TyString))
    then Some result
    else if negb (truthy (prop pset "Quantities"))
            || negb (isArray (prop pset "Quantities"))
    then Some result
    else
      quantities ← for_of add_quantity ∅ (arr_of (prop pset "Quantities"));
      if bool_decide (0 < size quantities)
      then Some (<[str_of qsetName := quantities]> result)
      else Some result.

(** [None] is the TypeError escaping from [getQuantityUnit]. *)
Definition formatQuantitySets (rawPsets : list JsVal)
  : option (gmap string (gmap string Quantity)) :=
  for_of add_quantity_set ∅ rawPsets.

(** ** Property sets (main.ts, [formatPropertySets]) *)

Definition structural_keys : list string :=
  ["Name"; "type"; "HasProperties"; "GlobalId"; "OwnerHistory"; "Description"].

(** [keys.includes(key)] on an array of string literals. *)
Definition key_in (key : string) (keys : list string) : bool :=
  bool_decide (key ∈ keys).

(** Body of the loop over [psetObj.HasProperties]. *)
Definition add_property (props : gmap string JsVal) (p : JsVal)
  : gmap string JsVal :=
  if negb (truthy p) || negb (bool_decide (typeof p = TyObject))
  then props
  else
    let propName := extractValue (prop p "Name") in
    let propValue := extractValue (prop p "NominalValue") in
    if truthy propName && bool_decide (typeof propName = TyString)
       && negb (is_undefined propValue) && negb (is_null propValue)
    then <[str_of propName := propValue]> props
    else props.

(** Body of the loop over [Object.entries(_)] that copies direct scalar
    fields, skipping the keys of [skip]. *)
Definition add_direct (skip : list string) (props : gmap string JsVal)
    (kv : string * JsVal) : gmap string JsVal :=
  if key_in kv.1 skip then props
  else
    let extracted := extractValue kv.2 in
    if negb (is_null extracted) && negb (bool_decide (typeof extracted = TyObject))
    then <[kv.1 := extracted]> props
    else props.

Definition has_properties (pset : JsVal) : gmap string JsVal :=
  if truthy (prop pset "HasProperties") && isArray (prop pset "HasProperties")
  then foldl add_property ∅ (arr_of (prop pset "HasProperties"))
  else ∅.

Definition pset_props (pset : JsVal) : gmap string JsVal :=
  foldl (add_direct structural_keys) (has_properties pset) (entries pset).

Definition pset_name (pset : JsVal) : JsVal :=
  js_or (js_or (extractValue (prop pset "Name")) (prop pset "type"))
        (JStr "PropertySet").

(** Body of the loop over [rawPsets]. *)
Definition add_property_set (result : gmap string (gmap string JsVal))
    (pset : JsVal) : gmap string (gmap string JsVal) :=
  if negb (truthy pset) || negb (bool_decide (typeof pset = TyObject))
  then result
  else if str_is "IfcElementQuantity" (prop pset "type")
  then result
  else
    let psetName := pset_name pset in
    if negb (bool_decide (typeof psetName = TyString))
    then result
    else
      let props := pset_props pset in
      if bool_decide (0 < size props)
      then <[str_of psetName := props]> result
      else result.

Definition formatPropertySets (rawPsets : list JsVal)
  : gmap string (gmap string JsVal) :=
  foldl add_property_set ∅ rawPsets.

(** ** Element resolver (main.ts, [updatePropertiesPanel]) *)

(** What the panel shows for one element: the values the HTML card is
    assembled from, in the order of the template. *)
Record ElementViewModel := {
  vm_name : JsVal;
  vm_localId : N;
  vm_globalId : JsVal;
  vm_ifcClass : JsVal;
  vm_predefinedType : JsVal;
  vm_objectType : JsVal;
  vm_typeInfo : string;
  vm_tag : JsVal;
  vm_description : JsVal;
  vm_longName : JsVal;
  vm_spatialContainer : string;
  vm_materials : list string;
  vm_typeProperties : gmap string JsVal;
  vm_directAttributes : gmap string JsVal;
  vm_propertySets : gmap string (gmap string JsVal);
  vm_quantitySets : gmap string (gmap string Quantity)
}.

(** Outcome of [await model.getItemsData([localId], ...)]. *)
Inductive FetchResult :=
| Raises
| Returns (itemsData : list JsVal).

Definition skipKeys : list string :=
  ["IsDefinedBy"; "IsTypedBy"; "ContainedInStructure"; "HasAssociations";
   "Representation"; "ObjectPlacement"; "OwnerHistory"; "type"].

Definition type_skip_keys : list string :=
  ["Name"; "type"; "GlobalId"; "OwnerHistory"; "Description"; "HasPropertySets"].

(** Body of the loop that fills [directAttributes]. *)
Definition add_attribute (directAttributes : gmap string JsVal)
    (kv : string * JsVal) : gmap string JsVal :=
  if negb (key_in kv.1 skipKeys) && negb (is_null kv.2) && negb (is_undefined kv.2)
  then
    let extracted := extractValue kv.2 in
    if negb (is_null extracted)
    then <[kv.1 := extracted]> directAttributes
    else directAttributes
  else directAttributes.

(** The inner [try]: [dataObj] starts as [{}] and is replaced when the
    fetch returns a truthy first item; a raised exception is caught and
    leaves it as it is. *)
Definition fetched (r : FetchResult) : JsVal :=
  match r with
  | Raises => JObj ∅
  | Returns itemsData =>
      let first := default JUndef (head itemsData) in
      if truthy first then first else JObj ∅
  end.

Definition unknown : JsVal := obj [("type", JStr "Unknown")].

(** [if (Object.keys(dataObj).length === 0) dataObj = { type: "Unknown" }] *)
Definition or_unknown (dataObj : JsVal) : JsVal :=
  if bool_decide (length (entries dataObj) = 0%nat) then unknown else dataObj.

Section Resolver.

(** Number-to-string conversion of the JavaScript runtime. *)
Variable num2str : number → string.

(** [String(v)] and the conversion inside a template literal. *)
Fixpoint js_String (v : JsVal) : string :=
  match v with
  | JUndef => "undefined"
  | JNull => "null"
  | JBool true => "true"
  | JBool false => "false"
  | JNum n => num2str n
  | JStr s => s
  | JArr l =>
      String.concat ","
        (map (fun x => match x with
                       | JUndef | JNull => ""
                       | _ => js_String x
                       end) l)
  | JObj _ => "[object Object]"
  end.

(** [typeProperties[`[${psetName}]`] = Object.entries(props).map(...).join(", ")] *)
Definition add_type_pset (typeProperties : gmap string JsVal)
    (kv : string * gmap string JsVal) : gmap string JsVal :=
  <["[" ++ kv.1 ++ "]" :=
      JStr (String.concat ", "
              (map (fun p : string * JsVal => p.1 ++ ": " ++ js_String p.2)
                   (map_to_list kv.2)))]> typeProperties.

(** Body of the loop over [dataObj.IsTypedBy]; the state is
    [(typeInfo, typeProperties)]. *)
Definition type_step (acc : string * gmap string JsVal) (rel : JsVal)
  : option (string * gmap string JsVal) :=
  name ← prop_chk rel "Name";
  let typeName := extractValue name in
  let typeInfo := if truthy typeName then js_String typeName else acc.1 in
  let typeProperties := foldl (add_direct type_skip_keys) acc.2 (entries rel) in
  let typeProperties :=
    if truthy (prop rel "HasPropertySets") && isArray (prop rel "HasPropertySets")
    then foldl add_type_pset typeProperties
           (map_to_list (formatPropertySets (arr_of (prop rel "HasPropertySets"))))
    else typeProperties in
  Some (typeInfo, typeProperties).

Definition type_info (dataObj : JsVal) : option (string * gmap string JsVal) :=
  if truthy (prop dataObj "IsTypedBy") && isArray (prop dataObj "IsTypedBy")
  then for_of type_step ("", ∅) (arr_of (prop dataObj "IsTypedBy"))
  else Some ("", ∅).

(** The loop over [dataObj.ContainedInStructure], which breaks at the
    first truthy name. *)
Fixpoint first_container (rels : list JsVal) : option string :=
  match rels with
  | [] => Some ""
  | rel :: rest =>
      name ← prop_chk rel "Name";
      let containerName := extractValue name in
      if truthy containerName then Some (js_String containerName)
      else first_container rest
  end.

Definition spatial_container (dataObj : JsVal) : option string :=
  if truthy (prop dataObj "ContainedInStructure")
     && isArray (prop dataObj "ContainedInStructure")
  then first_container (arr_of (prop dataObj "ContainedInStructure"))
  else Some "".

(** Body of the loop over [dataObj.HasAssociations]. *)
Definition material_step (materials : list string) (assoc : JsVal)
  : option (list string) :=
  ty ← prop_chk assoc "type";
  if str_is "IfcRelAssociatesMaterial" ty
  then
    let matName := extractValue (prop assoc "Name") in
    if truthy matName then Some (materials ++ [js_String matName])%list
    else Some materials
  else Some materials.

Definition material_names (dataObj : JsVal) : option (list string) :=
  if truthy (prop dataObj "HasAssociations") && isArray (prop dataObj "HasAssociations")
  then for_of material_step [] (arr_of (prop dataObj "HasAssociations"))
  else Some [].

Definition direct_attributes (dataObj : JsVal) : gmap string JsVal :=
  foldl add_attribute ∅ (entries dataObj).

Definition property_sets (dataObj : JsVal) : gmap string (gmap string JsVal) :=
  if truthy (prop dataObj "IsDefinedBy") && isArray (prop dataObj "IsDefinedBy")
     && bool_decide (0 < length (arr_of (prop dataObj "IsDefinedBy")))
  then formatPropertySets (arr_of (prop dataObj "IsDefinedBy"))
  else ∅.

Definition quantity_sets (dataObj : JsVal)
  : option (gmap string (gmap string Quantity)) :=
  if truthy (prop dataObj "IsDefinedBy") && isArray (prop dataObj "IsDefinedBy")
  then formatQuantitySets (arr_of (prop dataObj "IsDefinedBy"))
  else Some ∅.

(** The body of the outer [try] after the fetch, for a [dataObj] that is
    neither null nor undefined; [None] is an exception raised on the
    way, which the outer [catch] takes. *)
Definition resolve (localId : N) (dataObj : JsVal) : option ElementViewModel :=
  let name :=
    js_or (js_or (extractValue (prop dataObj "Name")) (prop dataObj "type"))
          (JStr ("Element " ++ pretty localId)) in
  ty ← type_info dataObj;
  spatialContainer ← spatial_container dataObj;
  materials ← material_names dataObj;
  quantitySets ← quantity_sets dataObj;
  Some {| vm_name := name;
          vm_localId := localId;
          vm_globalId := extractValue (prop dataObj "GlobalId");
          vm_ifcClass := prop dataObj "type";
          vm_predefinedType := extractValue (prop dataObj "PredefinedType");
          vm_objectType := extractValue (prop dataObj "ObjectType");
          vm_typeInfo := ty.1;
          vm_tag := extractValue (prop dataObj "Tag");
          vm_description := extractValue (prop dataObj "Description");
          vm_longName := extractValue (prop dataObj "LongName");
          vm_spatialContainer := spatialContainer;
          vm_materials := materials;
          vm_typeProperties := ty.2;
          vm_directAttributes := direct_attributes dataObj;
          vm_propertySets := property_sets dataObj;
          vm_quantitySets := quantitySets |}.

(** One iteration of the loop over [ids]: fetch, resolve, and push the
    card unless the outer [catch] took an exception. *)
Definition element_step (fetch : N → FetchResult) (propsHtml : list ElementViewModel)
    (localId : N) : list ElementViewModel :=
  match resolve localId (or_unknown (fetched (fetch localId))) with
  | Some card => (propsHtml ++ [card])%list
  | None => propsHtml
  end.

(** What [propsContainer.innerHTML] holds. *)
Inductive Panel :=
| SelectPrompt
| Loading
| Cards (propsHtml : list ElementViewModel)
| NoProperties.

(** The final assignment to [propsContainer.innerHTML]. *)
Definition commit (propsHtml : list ElementViewModel) : Panel :=
  if bool_decide (0 < length propsHtml) then Cards propsHtml else NoProperties.

(** The loaded models ([fragments.list]), each with its fetch. *)
Variable models : gmap string (N → FetchResult).

(** Body of the loop over [Object.entries(modelIdMap)]. *)
Definition model_step (propsHtml : list ElementViewModel)
    (entry : string * list N) : list ElementViewModel :=
  match models !! entry.1 with
  | None => propsHtml
  | Some fetch => foldl (element_step fetch) propsHtml entry.2
  end.

(** One invocation of [updatePropertiesPanel] run alone from its first
    line to its last, with [propsContainer] mounted: the content of the
    panel when it returns. *)
Definition updatePropertiesPanel (modelIdMap : list (string * list N)) : Panel :=
  if bool_decide (length modelIdMap = 0%nat) then SelectPrompt
  else commit (foldl model_step [] modelIdMap).

(** *** Overlapping invocations

    [updatePropertiesPanel] is an async function that the selection
    events call without awaiting it.  An invocation runs until its next
    [await]; when the awaited fetch settles it runs on to the following
    [await] or to its last line.  Several invocations may be suspended
    at once; they share [propsContainer] and nothing else. *)

(** The fetches an invocation will await, in order, each with the model
    it is asked of (models are looked up when the invocation starts). *)
Definition fetches_of (modelIdMap : list (string * list N))
  : list ((N → FetchResult) * N) :=
  flat_map (fun entry : string * list N =>
              match models !! entry.1 with
              | None => []
              | Some fetch => map (pair fetch) entry.2
              end) modelIdMap.

(** An invocation suspended at an [await]: its local [propsHtml] and the
    fetches still to come, the first of which is in flight. *)
Record Invocation := {
  inv_propsHtml : list ElementViewModel;
  inv_pending : list ((N → FetchResult) * N)
}.

Record Ui := {
  ui_panel : Panel;
  ui_running : gmap nat Invocation;
  ui_next : nat
}.

Inductive Event :=
| Select (modelIdMap : list (string * list N))
| Settle (t : nat).

Definition step (ui : Ui) (e : Event) : Ui :=
  match e with
  | Select modelIdMap =>
      if bool_decide (length modelIdMap = 0%nat)
      then {| ui_panel := SelectPrompt;
              ui_running := ui_running ui;
              ui_next := ui_next ui |}
      else
        match fetches_of modelIdMap with
        | [] => {| ui_panel := commit [];
                   ui_running := ui_running ui;
                   ui_next := ui_next ui |}
        | pending =>
            {| ui_panel := Loading;
               ui_running :=
                 <[ui_next ui := {| inv_propsHtml := []; inv_pending := pending |}]>
                   (ui_running ui);
               ui_next := S (ui_next ui) |}
        end
  | Settle t =>
      match ui_running ui !! t with
      | None => ui
      | Some inv =>
          match inv_pending inv with
          | [] => ui
          | (fetch, localId) :: rest =>
              let propsHtml := element_step fetch (inv_propsHtml inv) localId in
              match rest with
              | [] => {| ui_panel := commit propsHtml;
                         ui_running := delete t (ui_running ui);
                         ui_next := ui_next ui |}
              | _ => {| ui_panel := ui_panel ui;
                        ui_running :=
                          <[t := {| inv_propsHtml := propsHtml;
                                    inv_pending := rest |}]> (ui_running ui);
                        ui_next := ui_next ui |}
              end
          end
      end
  end.

Definition run (ui : Ui) (events : list Event) : Ui := foldl step ui events.

Definition idle : Ui :=
  {| ui_panel := SelectPrompt; ui_running := ∅; ui_next := 0 |}.

(** The cards an invocation ends with once all its fetches settled. *)
Definition cards_of (inv : Invocation) : list ElementViewModel :=
  foldl (fun propsHtml (p : (N → FetchResult) * N) => element_step p.1 propsHtml p.2)
        (inv_propsHtml inv) (inv_pending inv).

End Resolver.

(** ** Ghost mode (main.ts, [setModelTransparent], [restoreModelMaterials]) *)

Module Ghost.

(** A [THREE.Color], as the program sees it: through [getHex], [setHex]
    and [setColorName].  The class is the renderer library's; a colour
    is represented by its 24-bit hex code. *)
Definition Color := Z.
Definition getHex (c : Color) : Z := c.
Definition setHex (hex : Z) (c : Color) : Color := hex.
Definition setColorName_white (c : Color) : Color := 16777215%Z.

(** The two material shapes: one with a [color] field, one (the
    level-of-detail material) with [lodColor] instead. *)
Inductive ColorSlot :=
| OwnColor (color : Color)
| LodColor (lodColor : Color).

Record BIMMaterial := {
  customId : JsVal;          (* userData.customId *)
  slot : ColorSlot;
  transparent : bool;
  opacity : number;
  needsUpdate : bool
}.

Record Saved := {
  s_color : Z;
  s_transparent : bool;
  s_opacity : number
}.

(** Materials are objects; [originalColors] is keyed by their identity. *)
Definition ref := nat.

Record State := {
  heap : gmap ref BIMMaterial;
  materials : list ref;      (* [...fragments.core.models.materials.list.values()] *)
  originalColors : gmap ref Saved;
  ghostModeEnabled : bool
}.

(** ["color" in material ? material.color.getHex() : material.lodColor.getHex()] *)
Definition read_hex (m : BIMMaterial) : Z :=
  match slot m with
  | OwnColor c => getHex c
  | LodColor c => getHex c
  end.

Definition map_color (f : Color → Color) (s : ColorSlot) : ColorSlot :=
  match s with
  | OwnColor c => OwnColor (f c)
  | LodColor c => LodColor (f c)
  end.

Definition ghosted (m : BIMMaterial) : BIMMaterial :=
  {| customId := customId m;
     slot := map_color setColorName_white (slot m);
     transparent := true;
     opacity := n0_1;
     needsUpdate := true |}.

Definition restored (data : Saved) (m : BIMMaterial) : BIMMaterial :=
  {| customId := customId m;
     slot := map_color (setHex (s_color data)) (slot m);
     transparent := s_transparent data;
     opacity := s_opacity data;
     needsUpdate := true |}.

(** Body of the loop of [setModelTransparent]; the state is the heap and
    [originalColors]. *)
Definition ghost_step (acc : gmap ref BIMMaterial * gmap ref Saved) (r : ref)
  : gmap ref BIMMaterial * gmap ref Saved :=
  match acc.1 !! r with
  | None => acc
  | Some material =>
      if truthy (customId material) then acc
      else
        (<[r := ghosted material]> acc.1,
         <[r := {| s_color := read_hex material;
                   s_transparent := transparent material;
                   s_opacity := opacity material |}]> acc.2)
  end.

Definition setModelTransparent (st : State) : State :=
  let acc := foldl ghost_step (heap st, originalColors st) (materials st) in
  {| heap := acc.1;
     materials := materials st;
     originalColors := acc.2;
     ghostModeEnabled := true |}.

(** Body of the loop of [restoreModelMaterials]. *)
Definition restore_step (h : gmap ref BIMMaterial) (entry : ref * Saved)
  : gmap ref BIMMaterial :=
  match h !! entry.1 with
  | None => h
  | Some material => <[entry.1 := restored entry.2 material]> h
  end.

Definition restoreModelMaterials (st : State) : State :=
  {| heap := foldl restore_step (heap st) (map_to_list (originalColors st));
     materials := materials st;
     originalColors := ∅;
     ghostModeEnabled := false |}.

Definition onGhost (st : State) : State :=
  if ghostModeEnabled st then restoreModelMaterials st else setModelTransparent st.

(** The opt-out marker: a truthy [userData.customId]. *)
Definition opted_out (m : BIMMaterial) : bool := truthy (customId m).

(** The entry that [setModelTransparent] records for a material. *)
Definition snapshot (m : BIMMaterial) : Saved :=
  {| s_color := read_hex m;
     s_transparent := transparent m;
     s_opacity := opacity m |}.

(** The snapshot map is empty whenever ghost mode is off. *)
Definition normal (st : State) : Prop :=
  ghostModeEnabled st = false → originalColors st = ∅.


End Ghost.

(** ** Definitions used to state the results *)

Definition unit_table : list string := ["m"; "m²"; "m³"; "kg"; "ud"; "s"].

(** The probes as the specification words them: an ordered table of
    value field and unit, the first field present wins. *)
Definition probe_table : list (string * string) :=
  [("LengthValue", "m"); ("AreaValue", "m²"); ("VolumeValue", "m³");
   ("WeightValue", "kg"); ("CountValue", "ud"); ("TimeValue", "s")].

Definition selected_field (qObj : JsVal) : option (string * string) :=
  find (fun fu : string * string => negb (is_undefined (prop qObj fu.1))) probe_table.


(** A quantity sub-record whose declared type, if any, is a string. *)
Definition type_is_plain (q : JsVal) : Prop :=
  truthy (prop q "type") = false ∨ ∃ s, prop q "type" = JStr s.


(** The names that the loop over [IsTypedBy] accepts, in order. *)
Definition type_names (rels : list JsVal) : list JsVal :=
  filter (fun n => truthy n = true)
         ((fun rel => extractValue (prop rel "Name")) <$> rels).

(** The card of an element for which nothing was fetched. *)
Definition unknown_card (localId : N) : ElementViewModel :=
  {| vm_name := JStr "Unknown";
     vm_localId := localId;
     vm_globalId := JNull;
     vm_ifcClass := JStr "Unknown";
     vm_predefinedType := JNull;
     vm_objectType := JNull;
     vm_typeInfo := "";
     vm_tag := JNull;
     vm_description := JNull;
     vm_longName := JNull;
     vm_spatialContainer := "";
     vm_materials := [];
     vm_typeProperties := ∅;
     vm_directAttributes := ∅;
     vm_propertySets := ∅;
     vm_quantitySets := ∅ |}.


(** ** Sample records *)

(** Stand-in for the runtime's number formatting in the samples, none
    of which converts a number to a string. *)
Definition sample_num2str (n : number) : string := "".

Definition pset_with_description : JsVal :=
  obj [("Name", wrap (JStr "Pset_WallCommon"));
       ("type", JStr "IfcPropertySet");
       ("HasProperties",
        JArr [obj [("Name", wrap (JStr "Description"));
                   ("NominalValue", wrap (JStr "load bearing"))]])].

Definition wall_with_two_types : JsVal :=
  obj [("type", JStr "IfcWall");
       ("Name", wrap (JStr "Wall-01"));
       ("GlobalId", wrap (JStr "2O2Fr$t4X7Zf8NOew3FLOH"));
       ("IsTypedBy",
        JArr [obj [("Name", wrap (JStr "TypeA"))];
              obj [("Name", wrap (JStr "TypeB"))]])].


Definition qto_wall : JsVal :=
  obj [("type", JStr "IfcElementQuantity");
       ("Name", wrap (JStr "Qto_WallBaseQuantities"));
       ("Quantities",
        JArr [obj [("Name", wrap (JStr "Length")); ("LengthValue", wrap (JNum n12_5))];
              obj [("Name", wrap (JStr "Length")); ("LengthValue", wrap (JNum n0_1))];
              obj [("Name", wrap (JStr "Height"));
                   ("type", JStr "Qto_WallBaseQuantities.Height")]])].






(** A model whose fetch answers with one wall record tagged by the id. *)
Definition sample_fetch (localId : N) : FetchResult :=
  Returns [obj [("type", JStr "IfcWall"); ("Tag", wrap (JStr (pretty localId)))]].

Definition sample_models : gmap string (N → FetchResult) :=
  {["model" := sample_fetch]}.

Definition selection_A : list (string * list N) := [("model", [1%N])].
Definition selection_B : list (string * list N) := [("model", [2%N])].

Definition red_material : Ghost.BIMMaterial :=
  {| Ghost.customId := JUndef;
     Ghost.slot := Ghost.OwnColor 16711680%Z;
     Ghost.transparent := false;
     Ghost.opacity := n12_5;
     Ghost.needsUpdate := false |}.

Definition marked_material : Ghost.BIMMaterial :=
  {| Ghost.customId := JStr "selection";
     Ghost.slot := Ghost.LodColor 255%Z;
     Ghost.transparent := true;
     Ghost.opacity := n0_1;
     Ghost.needsUpdate := false |}.

Definition sample_materials : Ghost.State :=
  {| Ghost.heap := {[0%nat := red_material; 1%nat := marked_material]};
     Ghost.materials := [0%nat; 1%nat];
     Ghost.originalColors := ∅;
     Ghost.ghostModeEnabled := false |}.

(** * The rest of the viewer's logic *)

(** ** Definitions used to state further results *)

(** The eleven keywords [getQuantityUnit] looks for. *)
Definition unit_keywords : list string :=
  ["Volume"; "Area"; "Length"; "Width"; "Height"; "Depth"; "Perimeter";
   "Weight"; "Mass"; "Count"; "Time"].

(** [t] occurs in [s]. *)
Definition occurs_in (t s : string) : Prop :=
  ∃ pre post, s = pre ++ t ++ post.

(** [pset.type === "IfcElementQuantity"], the test both formatters
    branch on. *)
Definition is_quantity_record (pset : JsVal) : bool :=
  str_is "IfcElementQuantity" (prop pset "type").

(** A record that [formatPropertySets] files under [name]: it passes
    the guards and ends with at least one property. *)
Definition files_under (pset : JsVal) (name : string) : Prop :=
  truthy pset = true ∧ typeof pset = TyObject ∧
  is_quantity_record pset = false ∧
  pset_name pset = JStr name ∧ pset_props pset ≠ ∅.



(** What every state of the panel reached from the idle page
    satisfies: a suspended invocation has a fetch in flight and an id
    below the counter, and the loading text is shown only while some
    invocation is suspended. *)
Definition consistent (ui : Ui) : Prop :=
  (∀ t inv, ui_running ui !! t = Some inv →
            inv_pending inv ≠ [] ∧ t < ui_next ui) ∧
  (ui_panel ui = Loading → ui_running ui ≠ ∅).

(** ** Tool management (main.ts, [setTool], [updateToolButtons], the
    key and double-click handlers) *)

Module Tools.

(** An element matched by [document.querySelectorAll("[data-tool]")]. *)
Record Button := {
  data_tool : string;
  background : string;       (* style.background *)
  color : string             (* style.color *)
}.

Record State := {
  clipper_enabled : bool;       (* clipper.enabled *)
  length_enabled : bool;        (* lengthMeasurer.enabled *)
  area_enabled : bool;          (* areaMeasurer.enabled *)
  highlighter_enabled : bool;   (* highlighter.enabled *)
  activeTool : option string;   (* string | null *)
  buttons : list Button
}.

(** Calls into the clipper and the measurement components. *)
Inductive Call :=
| ClipperCreate | LengthCreate | AreaCreate
| ClipperDelete | LengthDelete | AreaDelete
| AreaEndCreation.

Definition paint (active : option string) (btn : Button) : Button :=
  if bool_decide (Some (data_tool btn) = active)
  then {| data_tool := data_tool btn; background := "#bcf124"; color := "#1a1d23" |}
  else {| data_tool := data_tool btn; background := ""; color := "" |}.

Definition updateToolButtons (active : option string) (bs : list Button)
  : list Button :=
  paint active <$> bs.

Definition setTool (tool : option string) (st : State) : State :=
  (* Disable all tools first *)
  let buttons0 := updateToolButtons None (buttons st) in
  if bool_decide (tool = activeTool st)
  then {| clipper_enabled := false; length_enabled := false;
          area_enabled := false; highlighter_enabled := true;
          activeTool := None; buttons := buttons0 |}
  else
    let s0 := {| clipper_enabled := false; length_enabled := false;
                 area_enabled := false; highlighter_enabled := true;
                 activeTool := tool; buttons := buttons0 |} in
    let s1 := if bool_decide (tool = Some "clipper")
              then {| clipper_enabled := true; length_enabled := length_enabled s0;
                      area_enabled := area_enabled s0; highlighter_enabled := false;
                      activeTool := activeTool s0; buttons := buttons s0 |}
              else s0 in
    let s2 := if bool_decide (tool = Some "length")
              then {| clipper_enabled := clipper_enabled s1; length_enabled := true;
                      area_enabled := area_enabled s1; highlighter_enabled := false;
                      activeTool := activeTool s1; buttons := buttons s1 |}
              else s1 in
    let s3 := if bool_decide (tool = Some "area")
              then {| clipper_enabled := clipper_enabled s2;
                      length_enabled := length_enabled s2;
                      area_enabled := true; highlighter_enabled := false;
                      activeTool := activeTool s2; buttons := buttons s2 |}
              else s2 in
    {| clipper_enabled := clipper_enabled s3; length_enabled := length_enabled s3;
       area_enabled := area_enabled s3; highlighter_enabled := highlighter_enabled s3;
       activeTool := activeTool s3;
       buttons := updateToolButtons tool (buttons s3) |}.

(** [viewport.ondblclick] *)
Definition ondblclick (st : State) : list Call :=
  ((if clipper_enabled st then [ClipperCreate] else [])
   ++ (if length_enabled st then [LengthCreate] else [])
   ++ (if area_enabled st then [AreaCreate] else []))%list.

(** The [keydown] listener, by [e.code]. *)
Definition onkeydown (code : string) (st : State) : list Call * State :=
  let calls1 :=
    if String.eqb code "Delete" || String.eqb code "Backspace"
    then ((if clipper_enabled st then [ClipperDelete] else [])
          ++ (if length_enabled st then [LengthDelete] else [])
          ++ (if area_enabled st then [AreaDelete] else []))%list
    else [] in
  let calls2 :=
    if String.eqb code "Enter"
    then (if area_enabled st then [AreaEndCreation] else [])
    else [] in
  let st' := if String.eqb code "Escape" then setTool None st else st in
  ((calls1 ++ calls2)%list, st').

(** No tool active: the state the page starts in. *)
Definition idle (st : State) : Prop :=
  clipper_enabled st = false ∧ length_enabled st = false ∧
  area_enabled st = false ∧ highlighter_enabled st = true ∧
  activeTool st = None ∧
  ∀ btn, btn ∈ buttons st → background btn = "" ∧ color btn = "".

End Tools.

(** ** Loading a model (main.ts, [onLoadIfc] and the [message] listener) *)

Module Host.

(** [file.name.replace(".ifc", "")]: a string pattern is replaced at its
    first occurrence only. *)
Fixpoint remove_first (pattern s : string) : string :=
  if String.prefix pattern s
  then String.substring (String.length pattern)
                        (String.length s - String.length pattern) s
  else match s with
       | EmptyString => EmptyString
       | String c s' => String c (remove_first pattern s')
       end.

(** [fileName.replace(/\.(ifc|IFC)$/, "")]: the match is the leftmost
    position from which the rest of the string is [.ifc] or [.IFC]. *)
Fixpoint strip_ifc (fileName : string) : string :=
  if String.eqb fileName ".ifc" || String.eqb fileName ".IFC" then EmptyString
  else match fileName with
       | EmptyString => EmptyString
       | String c s' => String c (strip_ifc s')
       end.

(** [bytes[i] = binaryString.charCodeAt(i)] for every index. *)
Definition char_codes (binaryString : string) : list N :=
  Ascii.N_of_ascii <$> list_ascii_of_string binaryString.

(** What made the [try] block fail; the reply carries its text. *)
Inductive Failure :=
| InvalidBase64          (* atob raised *)
| NoFileName             (* fileName.replace is not callable *)
| LoadRejected.          (* ifcLoader.load rejected *)

Inductive Effect :=
| Load (bytes : list N) (name : string)          (* ifcLoader.load(bytes, true, name) *)
| PostLoaded (success : bool) (error : option Failure).

Definition is_reply (e : Effect) : bool :=
  match e with PostLoaded _ _ => true | Load _ _ => false end.

Section Listener.

(** [atob] of the browser, on the value it is given; [None] when it
    raises. *)
Variable atob : JsVal → option string.

(** Whether [ifcLoader.load] resolves. *)
Variable loads : list N → string → bool.

(** The [message] listener on [event.data]; [None] is the TypeError of
    destructuring null or undefined, raised before the [try]. *)
Definition onmessage (eventData : JsVal) : option (list Effect) :=
  ty ← prop_chk eventData "type";
  let data := prop eventData "data" in
  let fileName := prop eventData "fileName" in
  if str_is "loadIFC" ty
  then
    match atob data with
    | None => Some [PostLoaded false (Some InvalidBase64)]
    | Some binaryString =>
        let bytes := char_codes binaryString in
        match fileName with
        | JStr name =>
            if loads bytes (strip_ifc name)
            then Some [Load bytes (strip_ifc name); PostLoaded true None]
            else Some [Load bytes (strip_ifc name);
                       PostLoaded false (Some LoadRejected)]
        | _ => Some [PostLoaded false (Some NoFileName)]
        end
    end
  else Some [].

End Listener.

(** [input.onchange] of [onLoadIfc], on the chosen files (name and
    content): the first file is loaded, under its name without the
    first [.ifc]. *)
Definition onchange (files : list (string * list N)) : list Effect :=
  match head files with
  | None => []
  | Some file => [Load file.2 (remove_first ".ifc" file.1)]
  end.

End Host.

(** ** The list of loaded models (main.ts, [loadedModels],
    [updateModelsList]) *)

Module Models.

(** A [Map] with string keys, in insertion order. *)
Section JsMap.
Context {V : Type}.

Fixpoint map_set (k : string) (v : V) (m : list (string * V)) : list (string * V) :=
  match m with
  | [] => [(k, v)]
  | (k', v') :: m' =>
      if String.eqb k' k then (k, v) :: m' else (k', v') :: map_set k v m'
  end.

Fixpoint map_get (k : string) (m : list (string * V)) : option V :=
  match m with
  | [] => None
  | (k', v') :: m' => if String.eqb k' k then Some v' else map_get k m'
  end.

Fixpoint map_delete (k : string) (m : list (string * V)) : list (string * V) :=
  match m with
  | [] => []
  | (k', v') :: m' =>
      if String.eqb k' k then m' else (k', v') :: map_delete k m'
  end.

End JsMap.

(** A model object: its id and its scene object. *)
Record Model := { modelId : string; object : nat }.

(** What [modelsListContainer.innerHTML] holds: one row per model id,
    or the text shown when there is none. *)
Inductive ListPanel :=
| Rows (ids : list string)
| NoModels.

(** Calls into the renderer and the fragments manager that the
    listeners make. *)
Inductive Call :=
| UseCamera (object : nat)            (* model.useCamera(world.camera.three) *)
| SceneAdd (object : nat)             (* world.scene.three.add(model.object) *)
| CoreUpdate                          (* fragments.core.update(true) *)
| FitCamera (object : nat)            (* controls.fitToSphere(...) *)
| SceneRemove (object : nat).         (* world.scene.three.remove(model.object) *)

Record State := {
  loadedModels : list (string * Model);
  fragments_list : list (string * Model);    (* fragments.list *)
  modelsListContainer : option ListPanel;    (* null until the layout is mounted *)
  calls : list Call
}.

Definition render (loaded : list (string * Model)) : ListPanel :=
  let items := loaded.*1 in
  if bool_decide (0 < length items) then Rows items else NoModels.

Definition updateModelsList (st : State) : State :=
  match modelsListContainer st with
  | None => st
  | Some _ =>
      {| loadedModels := loadedModels st;
         fragments_list := fragments_list st;
         modelsListContainer := Some (render (loadedModels st));
         calls := calls st |}
  end.

(** The [onItemSet] listener from its [await] on: the model is stored,
    the list redrawn and the camera fitted. *)
Definition onItemSet (model : Model) (st : State) : State :=
  updateModelsList
    {| loadedModels := map_set (modelId model) model (loadedModels st);
       fragments_list := fragments_list st;
       modelsListContainer := modelsListContainer st;
       calls := (calls st ++ [FitCamera (object model)])%list |}.

(** The click listener of a delete button whose [data-model-id]
    attribute reads [attr]. *)
Definition onDeleteClick (attr : string) (st : State) : State :=
  if negb (String.eqb attr "")
  then
    match map_get attr (loadedModels st) with
    | Some model =>
        updateModelsList
          {| loadedModels := map_delete attr (loadedModels st);
             fragments_list := map_delete attr (fragments_list st);
             modelsListContainer := modelsListContainer st;
             calls := (calls st ++ [SceneRemove (object model)])%list |}
    | None => st
    end
  else st.

(** The timer that looks the container up and draws the list. *)
Definition onMount (st : State) : State :=
  updateModelsList
    {| loadedModels := loadedModels st;
       fragments_list := fragments_list st;
       modelsListContainer := Some NoModels;
       calls := calls st |}.

(** What happens to the page: the fragments manager stores a model
    under its id and the [onItemSet] listener runs up to its [await];
    the listener resumes; a delete button is clicked; the layout timer
    fires. *)
Inductive Event :=
| ItemSet (model : Model)
| ItemSetResume (model : Model)
| DeleteClick (attr : string)
| Mount.

Definition step (st : State) (e : Event) : State :=
  match e with
  | ItemSet model =>
      {| loadedModels := loadedModels st;
         fragments_list := map_set (modelId model) model (fragments_list st);
         modelsListContainer := modelsListContainer st;
         calls := (calls st ++ [UseCamera (object model); SceneAdd (object model);
                                CoreUpdate])%list |}
  | ItemSetResume model => onItemSet model st
  | DeleteClick attr => onDeleteClick attr st
  | Mount => onMount st
  end.

Definition initial : State :=
  {| loadedModels := []; fragments_list := [];
     modelsListContainer := None; calls := [] |}.

End Models.

(** ** More sample records *)







(** * Results *)

(** Closes a decidable goal on closed terms by evaluation. *)
Ltac by_compute := apply (bool_decide_unpack _); vm_compute; exact I.

(** ** The attribute extractor *)

Lemma extractValue_falsy (v : JsVal) : truthy v = false → extractValue v = JNull.
Proof. intros H. unfold extractValue. by rewrite H. Qed.

Lemma extractValue_truthy_scalar (v : JsVal) :
  is_scalar v = true → truthy v = true → extractValue v = v.
Proof.
  intros Hs Ht. unfold extractValue. rewrite Ht.
  destruct v; simpl in *; try discriminate; reflexivity.
Qed.

Lemma extractValue_wrapped (m : gmap string JsVal) (v : JsVal) :
  m !! "value" = Some v → extractValue (JObj m) = v.
Proof.
  intros H. unfold extractValue. simpl.
  rewrite bool_decide_eq_true_2 by eauto. simpl. by rewrite H.
Qed.

Lemma extractValue_wrap (v : JsVal) : extractValue (wrap v) = v.
Proof. apply extractValue_wrapped. unfold wrap. simpl. apply lookup_insert_eq. Qed.

Lemma extractValue_array (l : list JsVal) : extractValue (JArr l) = JNull.
Proof. reflexivity. Qed.

Lemma extractValue_unwrapped_object (m : gmap string JsVal) :
  m !! "value" = None → extractValue (JObj m) = JNull.
Proof.
  intros H. unfold extractValue. simpl.
  rewrite bool_decide_eq_false_2; [done|]. rewrite H. by intros [? ?].
Qed.

(** C1 (code defect).  The claim asks that every string, number or
    boolean is returned unchanged.  The leading falsy test of
    [extractValue] swallows the scalars [0], [-0], [NaN], [false] and
    the empty string: each is a scalar and each is mapped to null, while
    the same scalar inside a wrapper is returned exactly.  So extraction
    is not idempotent either: the scalar extracted from [{ value: 0 }]
    is [0], and extracting it again gives null. *)
Theorem C1_extractValue_falsy_scalars_lost :
  is_scalar (JNum zero) = true ∧ extractValue (JNum zero) = JNull ∧
  extractValue (JNum neg_zero) = JNull ∧
  extractValue (JNum S754_nan) = JNull ∧
  is_scalar (JBool false) = true ∧ extractValue (JBool false) = JNull ∧
  is_scalar (JStr "") = true ∧ extractValue (JStr "") = JNull ∧
  extractValue (wrap (JNum zero)) = JNum zero ∧
  extractValue (wrap (JBool false)) = JBool false ∧
  extractValue (extractValue (wrap (JNum zero))) ≠ extractValue (wrap (JNum zero)).
Proof.
  repeat split; try reflexivity; try apply extractValue_wrap.
  rewrite extractValue_wrap. discriminate.
Qed.

(** ** The quantity-set formatter *)


Lemma selected_field_in_table (qObj : JsVal) (fu : string * string) :
  selected_field qObj = Some fu →
  fu ∈ probe_table ∧ prop qObj fu.1 ≠ JUndef.
Proof.
  unfold selected_field. intros H.
  split.
  - apply list_elem_of_In. by apply find_some in H as [? _].
  - apply find_some in H as [_ H]. intros E. rewrite E in H. discriminate.
Qed.
















(** *** The formatter returns on well-typed records

    The only exception inside [formatQuantitySets] is the call of
    [includes] on a declared type that is neither a string nor an
    array.  When every quantity sub-record has its [type] absent (or
    otherwise falsy) or a string, the formatter returns. *)

Lemma for_of_is_Some {A B : Type} (body : A → B → option A) (l : list B) :
  (∀ acc x, x ∈ l → is_Some (body acc x)) →
  ∀ acc, is_Some (for_of body acc l).
Proof.
  induction l as [|x l IH]; intros Hbody acc; simpl; [by eexists|].
  destruct (Hbody acc x) as [acc' ->]; [left|]. simpl.
  apply IH. intros acc'' y Hy. apply Hbody. by right.
Qed.

Lemma add_quantity_returns (q : JsVal) (acc : gmap string Quantity) :
  type_is_plain q → is_Some (add_quantity acc q).
Proof.
  intros Hty. unfold add_quantity.
  repeat (case_match; [by eexists|]).
  destruct (probe q) as [value unit0].
  destruct (is_null value && truthy (prop q "type")) eqn:E.
  - apply andb_true_iff in E as [_ Et].
    destruct Hty as [Hty|[s Hty]]; [congruence|].
    rewrite Hty. simpl. case_match; by eexists.
  - simpl. case_match; by eexists.
Qed.

Lemma formatQuantitySets_returns (rawPsets : list JsVal) :
  (∀ pset q, pset ∈ rawPsets → q ∈ arr_of (prop pset "Quantities") →
             type_is_plain q) →
  is_Some (formatQuantitySets rawPsets).
Proof.
  intros Hty. unfold formatQuantitySets.
  apply for_of_is_Some. intros acc pset Hin.
  unfold add_quantity_set.
  repeat (case_match; [by eexists|]).
  destruct (for_of_is_Some add_quantity (arr_of (prop pset "Quantities"))
              (fun acc' q Hq => add_quantity_returns q acc' (Hty pset q Hin Hq)) ∅)
    as [quantities ->].
  simpl. case_match; by eexists.
Qed.

(** ** The property-set formatter *)

Lemma add_direct_skipped (skip : list string) (key : string) (l : list (string * JsVal)) :
  key ∈ skip →
  ∀ props, foldl (add_direct skip) props l !! key = props !! key.
Proof.
  intros Hk. induction l as [|kv l IH]; intros props; simpl; [done|].
  rewrite IH. unfold add_direct, key_in.
  case_bool_decide as Hin; [done|].
  case_match; [|done].
  apply lookup_insert_ne. intros E. apply Hin. by rewrite E.
Qed.

Lemma typeof_string (v : JsVal) : typeof v = TyString → v = JStr (str_of v).
Proof. by destruct v. Qed.

Lemma typeof_number (v : JsVal) : typeof v = TyNumber → v = JNum (num_of v).
Proof. by destruct v. Qed.

Lemma add_property_cases (props : gmap string JsVal) (p : JsVal) :
  add_property props p = props ∨
  ∃ name,
    add_property props p = <[name := extractValue (prop p "NominalValue")]> props ∧
    extractValue (prop p "Name") = JStr name.
Proof.
  unfold add_property.
  destruct (negb (truthy p) || negb (bool_decide (typeof p = TyObject))); [by left|].
  destruct (truthy (extractValue (prop p "Name"))
            && bool_decide (typeof (extractValue (prop p "Name")) = TyString)
            && negb (is_undefined (extractValue (prop p "NominalValue")))
            && negb (is_null (extractValue (prop p "NominalValue")))) eqn:Ec;
    [|by left].
  right. exists (str_of (extractValue (prop p "Name"))). split; [done|].
  apply typeof_string.
  repeat (apply andb_true_iff in Ec as [Ec ?]).
  by eapply bool_decide_eq_true_1.
Qed.

Lemma has_properties_sound (l : list JsVal) (key : string) (v : JsVal) :
  ∀ props,
    foldl add_property props l !! key = Some v →
    props !! key = Some v ∨
    ∃ p, p ∈ l ∧ extractValue (prop p "Name") = JStr key ∧
         extractValue (prop p "NominalValue") = v.
Proof.
  induction l as [|p l IH]; intros props H; simpl in H; [by left|].
  destruct (IH _ H) as [Hp|(p' & Hin & ?)].
  - destruct (add_property_cases props p) as [E|(name & E & Hn)];
      rewrite E in Hp; [by left|].
    destruct (decide (name = key)) as [->|Hne].
    + rewrite lookup_insert_eq in Hp. injection Hp as <-.
      right. exists p. split; [left|done].
    + rewrite lookup_insert_ne in Hp by done. by left.
  - right. exists p'. split; [by right|done].
Qed.

Lemma add_property_set_cases (pset : JsVal) (result : gmap string (gmap string JsVal)) :
  add_property_set result pset = result ∨
  ∃ psetName,
    add_property_set result pset = <[psetName := pset_props pset]> result ∧
    pset_props pset ≠ ∅ ∧
    str_is "IfcElementQuantity" (prop pset "type") = false ∧
    pset_name pset = JStr psetName.
Proof.
  unfold add_property_set.
  destruct (negb (truthy pset) || negb (bool_decide (typeof pset = TyObject))); [by left|].
  destruct (str_is "IfcElementQuantity" (prop pset "type")) eqn:Et; [by left|].
  destruct (pset_name pset) as [| |b|n|psetName|a|m] eqn:En; simpl; try by left.
  case_bool_decide as Hsz; [|by left].
  right. exists psetName. repeat split; try done.
  intros E. rewrite E, map_size_empty in Hsz. lia.
Qed.

Lemma property_sets_sound (rawPsets : list JsVal) (psetName : string)
    (props : gmap string JsVal) :
  ∀ acc,
    foldl add_property_set acc rawPsets !! psetName = Some props →
    acc !! psetName = Some props ∨
    ∃ pset, pset ∈ rawPsets ∧ props = pset_props pset ∧ props ≠ ∅ ∧
            str_is "IfcElementQuantity" (prop pset "type") = false ∧
            pset_name pset = JStr psetName.
Proof.
  induction rawPsets as [|pset raw IH]; intros acc H; simpl in H; [by left|].
  destruct (IH _ H) as [Hacc|(pset' & Hin & ?)].
  - destruct (add_property_set_cases pset acc) as [E|(n & E & Hne & Ht & Hn)];
      rewrite E in Hacc; [by left|].
    destruct (decide (n = psetName)) as [->|Hd].
    + rewrite lookup_insert_eq in Hacc. apply (inj Some) in Hacc as <-.
      right. exists pset. split; [left|done].
    + rewrite lookup_insert_ne in Hacc by done. by left.
  - right. exists pset'. split; [by right|done].
Qed.

(** C7, as claimed, fails: a sub-record of [HasProperties] named
    Description puts the structural key Description into the emitted
    mapping. *)
Lemma C7_structural_key_from_sub_record :
  ¬ (∀ rawPsets psetName props key,
        formatPropertySets rawPsets !! psetName = Some props →
        key ∈ structural_keys → props !! key = None).
Proof.
  intros H.
  specialize (H [pset_with_description] "Pset_WallCommon"
                {["Description" := JStr "load bearing"]} "Description").
  assert (E : ({["Description" := JStr "load bearing"]} : gmap string JsVal)
              !! "Description" = None).
  { apply H; [vm_compute; reflexivity|by_compute]. }
  rewrite lookup_singleton_eq in E. discriminate.
Qed.

(** C7, amended.  The exclusion list guards the direct fields of the
    set record only: for a structural key, an emitted mapping holds
    exactly what the [HasProperties] sub-records put under that name,
    so the key appears only when a sub-record carries it as its
    extracted name, and then with that sub-record's extracted nominal
    value. *)
Theorem C7_structural_keys_only_from_sub_records (rawPsets : list JsVal)
    (psetName : string) (props : gmap string JsVal) (key : string) :
  formatPropertySets rawPsets !! psetName = Some props →
  key ∈ structural_keys →
  ∃ pset, pset ∈ rawPsets ∧ props = pset_props pset ∧
    props !! key = has_properties pset !! key ∧
    ∀ v, props !! key = Some v →
         ∃ p, p ∈ arr_of (prop pset "HasProperties") ∧
              extractValue (prop p "Name") = JStr key ∧
              extractValue (prop p "NominalValue") = v.
Proof.
  intros H Hk. unfold formatPropertySets in H.
  destruct (property_sets_sound _ _ _ _ H) as [Hacc|(pset & Hin & -> & _ & _ & _)].
  { by rewrite lookup_empty in Hacc. }
  exists pset. split; [done|]. split; [done|].
  assert (E : pset_props pset !! key = has_properties pset !! key).
  { unfold pset_props. by apply add_direct_skipped. }
  split; [done|].
  intros v Hv. rewrite E in Hv. unfold has_properties in Hv.
  destruct (truthy (prop pset "HasProperties") && isArray (prop pset "HasProperties"));
    [|by rewrite lookup_empty in Hv].
  destruct (has_properties_sound _ _ _ _ Hv) as [Hacc|?]; [|done].
  by rewrite lookup_empty in Hacc.
Qed.

(** ** The element resolver *)






Section ResolverFacts.

Variable num2str : number → string.


Lemma resolve_unknown (localId : N) :
  resolve num2str localId (or_unknown (fetched Raises)) = Some (unknown_card localId).
Proof. reflexivity. Qed.

Lemma type_step_label (rels : list JsVal) :
  ∀ typeInfo typeProperties typeInfo' typeProperties',
    for_of (type_step num2str) (typeInfo, typeProperties) rels = Some (typeInfo', typeProperties') →
    typeInfo' = from_option (js_String num2str) typeInfo (last (type_names rels)).
Proof.
  induction rels as [|rel rels IH]; intros ti tp ti' tp' H; simpl in H.
  - by injection H as <- _.
  - destruct (type_step num2str (ti, tp) rel) as [[ti1 tp1]|] eqn:Es; simpl in H; [|discriminate].
    apply IH in H. rewrite H. unfold type_step in Es.
    destruct (prop_chk rel "Name") as [name|] eqn:En; simpl in Es; [|discriminate].
    injection Es as <- _.
    assert (name = prop rel "Name") as ->.
    { destruct rel; simpl in En |- *; congruence. }
    unfold type_names. rewrite fmap_cons, filter_cons. simpl.
    destruct (truthy (extractValue (prop rel "Name"))) eqn:Et.
    + case_decide; [|done]. rewrite last_cons. by destruct (last _).
    + case_decide; [done|]. done.
Qed.

Lemma resolve_fields (localId : N) (dataObj : JsVal) (vm : ElementViewModel) :
  resolve num2str localId dataObj = Some vm →
  vm_directAttributes vm = direct_attributes dataObj ∧
  ∃ typeProperties,
    type_info num2str dataObj = Some (vm_typeInfo vm, typeProperties).
Proof.
  unfold resolve. intros H.
  destruct (type_info num2str dataObj) as [[typeInfo typeProperties]|];
    simpl in H; [|discriminate].
  destruct (spatial_container num2str dataObj); simpl in H; [|discriminate].
  destruct (material_names num2str dataObj); simpl in H; [|discriminate].
  destruct (quantity_sets dataObj); simpl in H; [|discriminate].
  injection H as <-. simpl. split; [done|]. by exists typeProperties.
Qed.

(** C6, amended.  The loop over [IsTypedBy] has no [break]: every record
    with a truthy extracted name overwrites [typeInfo], so the type
    label is the string of the last such name (the name itself when it
    is a string), and stays empty when there is none. *)
Theorem C6_type_label_is_last_name (localId : N) (dataObj : JsVal)
    (rels : list JsVal) (vm : ElementViewModel) :
  prop dataObj "IsTypedBy" = JArr rels →
  resolve num2str localId dataObj = Some vm →
  vm_typeInfo vm = from_option (js_String num2str) "" (last (type_names rels)) ∧
  ∀ s, last (type_names rels) = Some (JStr s) → vm_typeInfo vm = s.
Proof.
  intros Hrels H.
  apply resolve_fields in H as (_ & typeProperties & Ht).
  unfold type_info in Ht. rewrite Hrels in Ht. simpl in Ht.
  apply type_step_label in Ht.
  split; [done|]. intros s Hs. by rewrite Ht, Hs.
Qed.


Lemma element_step_raises (fetch : N → FetchResult)
    (propsHtml : list ElementViewModel) (localId : N) :
  fetch localId = Raises →
  element_step num2str fetch propsHtml localId = (propsHtml ++ [unknown_card localId])%list.
Proof.
  intros H. unfold element_step. by rewrite H, resolve_unknown.
Qed.

(** C4, amended.  An exception raised by the fetch of one element is
    caught by the inner [try]; the element is not left out but shown as
    the card of the placeholder record [{ type: "Unknown" }], and the
    loop goes on with the remaining elements.  An exception raised
    later in the iteration is taken by the outer [catch], and then the
    element adds no card.  Either way the iteration ends normally. *)
Theorem C4_fetch_failure_renders_unknown (fetch : N → FetchResult)
    (propsHtml : list ElementViewModel) (ids1 : list N) (localId : N)
    (ids2 : list N) :
  fetch localId = Raises →
  element_step num2str fetch propsHtml localId = (propsHtml ++ [unknown_card localId])%list ∧
  foldl (element_step num2str fetch) propsHtml (ids1 ++ localId :: ids2)%list =
    foldl (element_step num2str fetch)
          (foldl (element_step num2str fetch) propsHtml ids1 ++ [unknown_card localId])%list
          ids2 ∧
  ∀ other,
    resolve num2str other (or_unknown (fetched (fetch other))) = None →
    element_step num2str fetch propsHtml other = propsHtml.
Proof.
  intros H. split; [by apply element_step_raises|]. split.
  - rewrite foldl_app. simpl. by rewrite element_step_raises.
  - intros other Hn. unfold element_step. by rewrite Hn.
Qed.

(** *** The resolver returns on well-formed bundles

    Inside the outer [try] an exception can come from a null or
    undefined entry of a relation array, whose fields are read without
    a check, and from [formatQuantitySets]. *)




(** *** Overlapping invocations *)

Variable models : gmap string (N → FetchResult).

Lemma step_other_invocation (ui : Ui) (e : Event) (t : nat) (inv : Invocation) :
  ui_running ui !! t = Some inv → t < ui_next ui → e ≠ Settle t →
  ui_running (step num2str models ui e) !! t = Some inv ∧
  t < ui_next (step num2str models ui e).
Proof.
  intros Hr Hlt He. destruct e as [modelIdMap|t']; simpl.
  - case_bool_decide; simpl; [done|].
    destruct (fetches_of models modelIdMap); simpl; [done|].
    split; [|lia]. rewrite lookup_insert_ne by lia. done.
  - destruct (ui_running ui !! t') as [inv'|] eqn:Er'; [|done].
    destruct (inv_pending inv') as [|[fetch localId] rest]; [done|].
    assert (t' ≠ t) by congruence.
    destruct rest; simpl.
    + by rewrite lookup_delete_ne.
    + by rewrite lookup_insert_ne.
Qed.

Lemma run_other_invocations (others : list Event) (t : nat) (inv : Invocation) :
  Forall (fun e => e ≠ Settle t) others →
  ∀ ui,
    ui_running ui !! t = Some inv → t < ui_next ui →
    ui_running (run num2str models ui others) !! t = Some inv ∧
    t < ui_next (run num2str models ui others).
Proof.
  induction 1 as [|e others He Hothers IH]; intros ui Hr Hlt; simpl; [done|].
  destruct (step_other_invocation ui e t inv Hr Hlt He) as [Hr' Hlt'].
  by apply IH.
Qed.

Lemma run_to_completion (pending : list ((N → FetchResult) * N)) :
  pending ≠ [] →
  ∀ ui t propsHtml,
    ui_running ui !! t =
      Some {| inv_propsHtml := propsHtml; inv_pending := pending |} →
    ui_panel (run num2str models ui (replicate (length pending) (Settle t))) =
      commit (cards_of num2str
                {| inv_propsHtml := propsHtml; inv_pending := pending |}).
Proof.
  induction pending as [|[fetch localId] rest IH]; intros Hne ui t propsHtml Hr;
    [done|].
  unfold cards_of. simpl. rewrite Hr. simpl.
  destruct rest as [|p rest]; [done|].
  rewrite (IH ltac:(done) _ t (element_step num2str fetch propsHtml localId)).
  - done.
  - simpl. apply lookup_insert_eq.
Qed.

Lemma fetches_of_fold (modelIdMap : list (string * list N)) :
  ∀ propsHtml,
    foldl (model_step num2str models) propsHtml modelIdMap =
    cards_of num2str {| inv_propsHtml := propsHtml;
                        inv_pending := fetches_of models modelIdMap |}.
Proof.
  unfold cards_of. simpl.
  induction modelIdMap as [|[modelId ids] rest IH]; intros propsHtml; [done|].
  simpl. rewrite IH. unfold model_step. simpl.
  destruct (models !! modelId) as [fetch|]; [|done].
  rewrite foldl_app. f_equal.
  generalize propsHtml. induction ids as [|localId ids IHids]; intros acc; [done|].
  simpl. apply IHids.
Qed.

(** An invocation that nothing interleaves with leaves in the panel
    what [updatePropertiesPanel] computes from first line to last. *)
Lemma run_alone (ui : Ui) (modelIdMap : list (string * list N)) :
  ui_panel (run num2str models ui
              (Select modelIdMap ::
               replicate (length (fetches_of models modelIdMap))
                         (Settle (ui_next ui)))) =
    updatePropertiesPanel num2str models modelIdMap.
Proof.
  unfold updatePropertiesPanel. rewrite fetches_of_fold.
  change (run num2str models ui (Select modelIdMap :: ?evs))
    with (run num2str models (step num2str models ui (Select modelIdMap)) evs).
  destruct modelIdMap as [|entry rest]; [done|].
  cbn [step length]. rewrite bool_decide_eq_false_2 by done.
  destruct (fetches_of models (entry :: rest)) as [|p pending]; [done|].
  apply (run_to_completion (p :: pending)); [done|].
  cbn [ui_running ui_next]. apply lookup_insert_eq.
Qed.

(** C5, amended.  No generation token exists.  An invocation that is
    suspended at a fetch keeps its own [propsHtml] whatever happens in
    between -- newer selections starting, their fetches settling, their
    results being shown -- and when its own fetches have settled it
    writes its cards to the panel without comparing anything.  The
    panel therefore shows the invocation that finished last, which may
    be the superseded one. *)
Theorem C5_superseded_invocation_commits (ui : Ui) (t : nat) (inv : Invocation)
    (others : list Event) :
  ui_running ui !! t = Some inv → t < ui_next ui →
  inv_pending inv ≠ [] →
  Forall (fun e => e ≠ Settle t) others →
  ui_panel (run num2str models (run num2str models ui others)
                (replicate (length (inv_pending inv)) (Settle t))) =
    commit (cards_of num2str inv).
Proof.
  intros Hr Hlt Hne Hothers.
  destruct (run_other_invocations others t inv Hothers ui Hr Hlt) as [Hr' _].
  destruct inv as [propsHtml pending]. simpl in *.
  by apply run_to_completion.
Qed.

End ResolverFacts.

(** ** Ghost mode *)

Module GhostFacts.
Import Ghost.

Lemma ghost_step_at (acc : gmap ref BIMMaterial * gmap ref Saved) (r : ref) :
  (ghost_step acc r).1 !! r =
    (fun m => if opted_out m then m else ghosted m) <$> acc.1 !! r ∧
  (ghost_step acc r).2 !! r =
    match acc.1 !! r with
    | Some m => if opted_out m then acc.2 !! r else Some (snapshot m)
    | None => acc.2 !! r
    end.
Proof.
  unfold ghost_step, opted_out.
  destruct (acc.1 !! r) as [m|] eqn:E; simpl; [|by rewrite E].
  destruct (truthy (customId m)); simpl; [by rewrite E|].
  by rewrite !lookup_insert_eq.
Qed.

Lemma ghost_step_other (acc : gmap ref BIMMaterial * gmap ref Saved) (r r' : ref) :
  r ≠ r' →
  (ghost_step acc r).1 !! r' = acc.1 !! r' ∧
  (ghost_step acc r).2 !! r' = acc.2 !! r'.
Proof.
  intros Hne. unfold ghost_step.
  destruct (acc.1 !! r) as [m|]; [|done].
  destruct (truthy (customId m)); [done|]. simpl.
  by rewrite !lookup_insert_ne.
Qed.

Lemma ghost_fold_notin (l : list ref) (r : ref) :
  r ∉ l →
  ∀ acc,
    (foldl ghost_step acc l).1 !! r = acc.1 !! r ∧
    (foldl ghost_step acc l).2 !! r = acc.2 !! r.
Proof.
  induction l as [|r0 l IH]; intros Hr acc; simpl; [done|].
  apply not_elem_of_cons in Hr as [Hne Hr].
  destruct (IH Hr (ghost_step acc r0)) as [-> ->].
  by apply ghost_step_other.
Qed.

Lemma ghost_fold_in (l : list ref) (r : ref) :
  NoDup l → r ∈ l →
  ∀ acc,
    (foldl ghost_step acc l).1 !! r = (ghost_step acc r).1 !! r ∧
    (foldl ghost_step acc l).2 !! r = (ghost_step acc r).2 !! r.
Proof.
  induction l as [|r0 l IH]; intros Hnd Hin acc; [by apply elem_of_nil in Hin|].
  apply NoDup_cons in Hnd as [Hfresh Hnd]. simpl.
  apply elem_of_cons in Hin as [->|Hin].
  - by apply ghost_fold_notin.
  - assert (r0 ≠ r) as Hne by (intros ->; done).
    destruct (IH Hnd Hin (ghost_step acc r0)) as [-> ->].
    destruct (ghost_step_other acc r0 r Hne) as [E1 E2].
    destruct (ghost_step_at (ghost_step acc r0) r) as [-> ->].
    destruct (ghost_step_at acc r) as [-> ->].
    by rewrite E1, E2.
Qed.

Lemma restore_fold_notin (l : list (ref * Saved)) (r : ref) :
  r ∉ l.*1 →
  ∀ h, foldl restore_step h l !! r = h !! r.
Proof.
  induction l as [|entry l IH]; intros Hr h; simpl; [done|].
  rewrite fmap_cons in Hr. apply not_elem_of_cons in Hr as [Hne Hr].
  rewrite IH by done. unfold restore_step.
  destruct (h !! entry.1); [|done]. by rewrite lookup_insert_ne.
Qed.

Lemma restore_fold_in (l : list (ref * Saved)) (r : ref) (data : Saved) :
  NoDup l.*1 → (r, data) ∈ l →
  ∀ h, foldl restore_step h l !! r = restored data <$> h !! r.
Proof.
  induction l as [|entry l IH]; intros Hnd Hin h; [by apply elem_of_nil in Hin|].
  rewrite fmap_cons in Hnd. apply NoDup_cons in Hnd as [Hfresh Hnd]. simpl.
  apply elem_of_cons in Hin as [<-|Hin].
  - rewrite restore_fold_notin by done. unfold restore_step. simpl.
    destruct (h !! r) as [m|] eqn:E; simpl; [by rewrite lookup_insert_eq|done].
  - assert (entry.1 ≠ r) as Hne.
    { intros E. apply Hfresh. rewrite E. apply list_elem_of_fmap. by exists (r, data). }
    rewrite IH by done. unfold restore_step.
    destruct (h !! entry.1); [|done]. by rewrite lookup_insert_ne.
Qed.

Lemma restore_lookup (st : State) (r : ref) :
  heap (restoreModelMaterials st) !! r =
    match originalColors st !! r with
    | Some data => restored data <$> heap st !! r
    | None => heap st !! r
    end.
Proof.
  unfold restoreModelMaterials. simpl.
  destruct (originalColors st !! r) as [data|] eqn:E.
  - apply restore_fold_in; [apply NoDup_fst_map_to_list|by apply elem_of_map_to_list].
  - apply restore_fold_notin.
    intros Hin. apply list_elem_of_fmap in Hin as ([r' d] & -> & Hin).
    apply elem_of_map_to_list in Hin. simpl in E. congruence.
Qed.

Lemma ghost_lookup (st : State) (r : ref) :
  NoDup (materials st) →
  heap (setModelTransparent st) !! r =
    (if bool_decide (r ∈ materials st)
     then (fun m => if opted_out m then m else ghosted m) <$> heap st !! r
     else heap st !! r) ∧
  originalColors (setModelTransparent st) !! r =
    (if bool_decide (r ∈ materials st)
     then match heap st !! r with
          | Some m => if opted_out m then originalColors st !! r
                      else Some (snapshot m)
          | None => originalColors st !! r
          end
     else originalColors st !! r).
Proof.
  intros Hnd. unfold setModelTransparent. cbn [heap originalColors].
  case_bool_decide as Hin.
  - destruct (ghost_fold_in _ r Hnd Hin (heap st, originalColors st)) as [-> ->].
    apply (ghost_step_at (heap st, originalColors st)).
  - by apply ghost_fold_notin.
Qed.


Lemma onGhost_normal (st : State) : normal st → normal (onGhost st).
Proof.
  intros Hn. unfold onGhost, normal.
  destruct (ghostModeEnabled st); simpl; [done|discriminate].
Qed.


End GhostFacts.

(** ** Worked instances *)




(** C7, amended, at the set with a sub-property named Description. *)
Lemma C7_witness :
  ∃ pset, pset ∈ [pset_with_description] ∧
    ∀ v, ({["Description" := JStr "load bearing"]} : gmap string JsVal)
           !! "Description" = Some v →
         ∃ p, p ∈ arr_of (prop pset "HasProperties") ∧
              extractValue (prop p "Name") = JStr "Description" ∧
              extractValue (prop p "NominalValue") = v.
Proof.
  destruct (C7_structural_keys_only_from_sub_records
              [pset_with_description] "Pset_WallCommon"
              {["Description" := JStr "load bearing"]} "Description")
    as (pset & Hin & _ & _ & Hv).
  - vm_compute. reflexivity.
  - by_compute.
  - exists pset. by split.
Defined.

(** C6, as claimed, fails: of two type records named TypeA and TypeB
    the label is TypeB, not the first record's name. *)
Lemma C6_first_type_name_overwritten :
  ¬ (∀ (num2str : number → string) (localId : N) (dataObj : JsVal)
       (rels : list JsVal) (vm : ElementViewModel) (first : JsVal),
        prop dataObj "IsTypedBy" = JArr rels →
        resolve num2str localId dataObj = Some vm →
        head (type_names rels) = Some first →
        vm_typeInfo vm = js_String num2str first).
Proof.
  intros H.
  destruct (resolve sample_num2str 1 wall_with_two_types) as [vm|] eqn:E;
    [|vm_compute in E; discriminate].
  specialize (H sample_num2str 1%N wall_with_two_types
                [obj [("Name", wrap (JStr "TypeA"))];
                 obj [("Name", wrap (JStr "TypeB"))]] vm (JStr "TypeA")).
  assert (Ht : vm_typeInfo vm = "TypeB").
  { vm_compute in E. injection E as <-. reflexivity. }
  rewrite Ht in H.
  assert (C : "TypeB" = js_String sample_num2str (JStr "TypeA")).
  { apply H; [vm_compute; reflexivity|done|vm_compute; reflexivity]. }
  discriminate.
Qed.

(** C6, amended, at the wall with type records TypeA and TypeB. *)
Lemma C6_witness :
  ∃ vm, resolve sample_num2str 1 wall_with_two_types = Some vm ∧
        vm_typeInfo vm = "TypeB".
Proof.
  destruct (resolve sample_num2str 1 wall_with_two_types) as [vm|] eqn:E;
    [|vm_compute in E; discriminate].
  exists vm. split; [done|].
  destruct (C6_type_label_is_last_name sample_num2str 1 wall_with_two_types
              [obj [("Name", wrap (JStr "TypeA"))];
               obj [("Name", wrap (JStr "TypeB"))]] vm) as [_ Hs].
  - vm_compute. reflexivity.
  - exact E.
  - apply Hs. vm_compute. reflexivity.
Defined.



(** C4, as claimed, fails: the element whose fetch raised is not
    omitted, its placeholder card is pushed. *)
Lemma C4_failed_fetch_not_omitted :
  ¬ (∀ (num2str : number → string) (fetch : N → FetchResult)
       (propsHtml : list ElementViewModel) (localId : N),
        fetch localId = Raises →
        element_step num2str fetch propsHtml localId = propsHtml).
Proof.
  intros H.
  specialize (H sample_num2str (fun _ => Raises) [] 7%N eq_refl).
  vm_compute in H. discriminate.
Qed.

(** C4, amended, at a model whose every fetch raises. *)
Lemma C4_witness :
  element_step sample_num2str (fun _ => Raises) [] 7 = [unknown_card 7] ∧
  foldl (element_step sample_num2str (fun _ => Raises)) [] [7%N; 8%N]
    = [unknown_card 7; unknown_card 8].
Proof.
  destruct (C4_fetch_failure_renders_unknown sample_num2str (fun _ => Raises)
              [] [] 7 [8%N] eq_refl) as (Hstep & Hloop & _).
  split; [exact Hstep|].
  etrans; [exact Hloop|]. vm_compute. reflexivity.
Defined.

(** C5, as claimed, fails.  Selection A starts, selection B starts, B's
    fetch settles and B's card is shown; then A's fetch settles and A's
    card replaces it.  The panel ends with the superseded batch. *)
Lemma C5_stale_batch_shown :
  ui_panel (run sample_num2str sample_models idle
              [Select selection_A; Select selection_B; Settle 1; Settle 0])
    = updatePropertiesPanel sample_num2str sample_models selection_A ∧
  ui_panel (run sample_num2str sample_models idle
              [Select selection_A; Select selection_B; Settle 1; Settle 0])
    ≠ updatePropertiesPanel sample_num2str sample_models selection_B.
Proof.
  split; [vm_compute; reflexivity|].
  intros H. vm_compute in H. discriminate.
Qed.

(** C5, amended, at the schedule of the counterexample: A is suspended
    while B starts and finishes, then A's fetch settles. *)
Lemma C5_witness :
  ui_panel (run sample_num2str sample_models
              (run sample_num2str sample_models
                   (run sample_num2str sample_models idle [Select selection_A])
                   [Select selection_B; Settle 1])
              [Settle 0])
    = updatePropertiesPanel sample_num2str sample_models selection_A.
Proof.
  etrans.
  - apply (C5_superseded_invocation_commits sample_num2str sample_models
             (run sample_num2str sample_models idle [Select selection_A]) 0
             {| inv_propsHtml := []; inv_pending := [(sample_fetch, 1%N)] |}
             [Select selection_B; Settle 1]).
    + vm_compute. reflexivity.
    + vm_compute. lia.
    + discriminate.
    + repeat constructor; discriminate.
  - vm_compute. reflexivity.
Defined.


(** * Further results *)

(** ** Strings *)

Lemma append_nil (b : string) : "" ++ b = b.
Proof. reflexivity. Qed.

Lemma append_cons (x : Ascii.ascii) (a b : string) :
  String x a ++ b = String x (a ++ b).
Proof. reflexivity. Qed.

Lemma prefix_append (t post : string) : String.prefix t (t ++ post) = true.
Proof.
  induction t as [|a t IH]; [by destruct post|].
  rewrite append_cons. simpl. by destruct (Ascii.ascii_dec a a).
Qed.

Lemma prefix_split (t s : string) :
  String.prefix t s = true → ∃ post, s = t ++ post.
Proof.
  revert s. induction t as [|a t IH]; intros s H; simpl in *.
  - by exists s.
  - destruct s as [|b s]; [discriminate|]. simpl in H.
    destruct (Ascii.ascii_dec a b) as [->|]; [|discriminate].
    destruct (IH s H) as [post ->]. by exists post.
Qed.

Lemma append_assoc (a b c : string) : (a ++ b) ++ c = a ++ b ++ c.
Proof.
  induction a as [|x a IH]; [done|]. by rewrite !append_cons, IH.
Qed.

Lemma includes_nil (t : string) : includes "" t = String.prefix t "" || false.
Proof. reflexivity. Qed.

Lemma includes_cons (c : Ascii.ascii) (s t : string) :
  includes (String c s) t = String.prefix t (String c s) || includes s t.
Proof. reflexivity. Qed.

Lemma includes_occurs (s t : string) : includes s t = true ↔ occurs_in t s.
Proof.
  split.
  - induction s as [|c s IH]; intros H.
    + rewrite includes_nil, orb_false_r in H.
      apply prefix_split in H as [post H]. by exists "", post.
    + rewrite includes_cons in H. apply orb_true_iff in H as [H|H].
      * apply prefix_split in H as [post H]. by exists "", post.
      * destruct (IH H) as (pre & post & ->). by exists (String c pre), post.
  - intros (pre & post & ->).
    induction pre as [|c pre IH].
    + rewrite append_nil.
      destruct (t ++ post) eqn:E.
      * by rewrite includes_nil, <- E, prefix_append.
      * by rewrite includes_cons, <- E, prefix_append.
    + rewrite append_cons, includes_cons, IH. apply orb_true_r.
Qed.

(** ** The unit keywords *)

Lemma unit_of_range (inc : string → bool) :
  unit_of inc = "" ∨ unit_of inc ∈ unit_table.
Proof.
  unfold unit_of, unit_table.
  repeat (case_match; [right; set_solver|]). by left.
Qed.

(** [getQuantityUnit] gives the volume unit to every type name in which
    Volume occurs, whatever else occurs in it, and the area unit to
    every name with Area and without Volume: the first keyword of the
    cascade that occurs decides. *)
Theorem getQuantityUnit_precedence (quantityType : string) :
  (occurs_in "Volume" quantityType → getQuantityUnit quantityType = "m³") ∧
  (¬ occurs_in "Volume" quantityType → occurs_in "Area" quantityType →
   getQuantityUnit quantityType = "m²") ∧
  (getQuantityUnit quantityType = "" ∨ getQuantityUnit quantityType ∈ unit_table).
Proof.
  unfold getQuantityUnit. split; [|split].
  - intros H. apply includes_occurs in H. unfold unit_of. by rewrite H.
  - intros Hv Ha. apply includes_occurs in Ha.
    destruct (includes quantityType "Volume") eqn:E.
    + exfalso. apply Hv. by apply includes_occurs.
    + unfold unit_of. by rewrite E, Ha.
  - apply unit_of_range.
Qed.

(** [getQuantityUnit] gives the empty unit exactly to the type names in
    which none of the eleven keywords occurs. *)
Theorem getQuantityUnit_empty_iff (quantityType : string) :
  getQuantityUnit quantityType = "" ↔
  ∀ k, k ∈ unit_keywords → ¬ occurs_in k quantityType.
Proof.
  unfold getQuantityUnit, unit_of, unit_keywords. split.
  - intros H k Hk Hocc. apply includes_occurs in Hocc.
    repeat (apply elem_of_cons in Hk as [->|Hk];
            [rewrite Hocc in H; simpl in H; rewrite ?orb_true_r in H;
             repeat case_match; discriminate|]).
    by apply elem_of_nil in Hk.
  - intros H.
    assert (∀ k, k ∈ unit_keywords → includes quantityType k = false) as Hf.
    { intros k Hk. destruct (includes quantityType k) eqn:E; [|done].
      exfalso. apply (H k Hk). by apply includes_occurs. }
    unfold unit_keywords in Hf.
    rewrite !Hf by (apply (bool_decide_unpack _); vm_compute; exact I).
    reflexivity.
Qed.

Lemma getQuantityUnit_precedence_witness :
  getQuantityUnit "NetVolumePerArea" = "m³" ∧
  getQuantityUnit "NetSideArea" = "m²".
Proof.
  split.
  - apply (getQuantityUnit_precedence "NetVolumePerArea").
    by exists "Net", "PerArea".
  - apply (getQuantityUnit_precedence "NetSideArea").
    + intros H. apply includes_occurs in H. vm_compute in H. discriminate.
    + by exists "NetSide", "".
Defined.

Lemma getQuantityUnit_empty_iff_witness :
  getQuantityUnit "Qto_Custom.Thickness" = "" ∧
  (∀ k, k ∈ unit_keywords → ¬ occurs_in k "Qto_Custom.Thickness").
Proof.
  assert (H : getQuantityUnit "Qto_Custom.Thickness" = "")
    by (vm_compute; reflexivity).
  split; [exact H|].
  exact (proj1 (getQuantityUnit_empty_iff "Qto_Custom.Thickness") H).
Defined.

(** ** The two formatters share one input *)

Lemma add_property_set_quantity (result : gmap string (gmap string JsVal))
    (pset : JsVal) :
  is_quantity_record pset = true → add_property_set result pset = result.
Proof.
  intros H. unfold add_property_set. unfold is_quantity_record in H.
  rewrite H. by case_match.
Qed.

Lemma add_quantity_set_other (result : gmap string (gmap string Quantity))
    (pset : JsVal) :
  is_quantity_record pset = false → add_quantity_set result pset = Some result.
Proof.
  intros H. unfold add_quantity_set. unfold is_quantity_record in H.
  rewrite H. by case_match.
Qed.

(** The records of one [IsDefinedBy] list are divided between the two
    formatters by their kind tag: [formatPropertySets] gives the same
    result when the records tagged IfcElementQuantity are removed, and
    [formatQuantitySets] the same outcome when all others are removed.
    No record contributes to both. *)
Theorem formatters_partition (rawPsets : list JsVal) :
  formatPropertySets rawPsets =
    formatPropertySets (filter (fun p => is_quantity_record p = false) rawPsets) ∧
  formatQuantitySets rawPsets =
    formatQuantitySets (filter (fun p => is_quantity_record p = true) rawPsets).
Proof.
  unfold formatPropertySets, formatQuantitySets. split.
  - generalize (∅ : gmap string (gmap string JsVal)).
    induction rawPsets as [|p raw IH]; intros acc; [done|].
    rewrite filter_cons. simpl.
    destruct (is_quantity_record p) eqn:E.
    + rewrite decide_False by done. rewrite add_property_set_quantity by done.
      apply IH.
    + rewrite decide_True by done. simpl. apply IH.
  - generalize (∅ : gmap string (gmap string Quantity)).
    induction rawPsets as [|p raw IH]; intros acc; [done|].
    rewrite filter_cons. simpl.
    destruct (is_quantity_record p) eqn:E.
    + rewrite decide_True by done. simpl.
      destruct (add_quantity_set acc p); simpl; [apply IH|done].
    + rewrite decide_False by done. rewrite add_quantity_set_other by done.
      simpl. apply IH.
Qed.

(** Every property set that [formatPropertySets] emits has at least one
    property and is the merged mapping of one record of the input that
    is not tagged IfcElementQuantity and whose resolved name (extracted
    Name, else the kind tag, else PropertySet) is the key it is filed
    under. *)
Theorem property_sets_emitted (rawPsets : list JsVal) (psetName : string)
    (props : gmap string JsVal) :
  formatPropertySets rawPsets !! psetName = Some props →
  props ≠ ∅ ∧
  ∃ pset, pset ∈ rawPsets ∧ props = pset_props pset ∧
          is_quantity_record pset = false ∧ pset_name pset = JStr psetName.
Proof.
  intros H. unfold formatPropertySets in H.
  destruct (property_sets_sound _ _ _ _ H) as [Hacc|(pset & Hin & -> & Hne & Hq & Hn)].
  { by rewrite lookup_empty in Hacc. }
  split; [done|]. by exists pset.
Qed.

Lemma property_sets_emitted_witness :
  ∃ pset, pset ∈ [pset_with_description] ∧
          ({["Description" := JStr "load bearing"]} : gmap string JsVal)
            = pset_props pset ∧
          is_quantity_record pset = false ∧
          pset_name pset = JStr "Pset_WallCommon".
Proof.
  apply (property_sets_emitted [pset_with_description] "Pset_WallCommon").
  vm_compute. reflexivity.
Defined.

(** *** Merging the two encodings of one set *)






(** *** Records with the same set name *)



Lemma files_under_name (pset : JsVal) (n1 n2 : string) :
  files_under pset n1 → files_under pset n2 → n1 = n2.
Proof. intros (_ & _ & _ & H1 & _) (_ & _ & _ & H2 & _). congruence. Qed.



(** ** More on the element resolver *)

Section ResolverMore.

Variable num2str : number → string.






Lemma resolve_name (localId : N) (dataObj : JsVal) (vm : ElementViewModel) :
  resolve num2str localId dataObj = Some vm →
  vm_localId vm = localId ∧
  vm_name vm =
    js_or (js_or (extractValue (prop dataObj "Name")) (prop dataObj "type"))
          (JStr ("Element " ++ pretty localId)).
Proof.
  unfold resolve. intros H.
  destruct (type_info num2str dataObj); simpl in H; [|discriminate].
  destruct (spatial_container num2str dataObj); simpl in H; [|discriminate].
  destruct (material_names num2str dataObj); simpl in H; [|discriminate].
  destruct (quantity_sets dataObj); simpl in H; [|discriminate].
  by injection H as <-.
Qed.


(** A fetch that returns without raising can still leave nothing to
    show: when it returns no item, or a first item that is falsy or has
    no own fields (an empty object or array, a number, a boolean), the
    element is shown as the card of [{ type: "Unknown" }], as after a
    failed fetch. *)
Theorem empty_fetch_renders_unknown (fetch : N → FetchResult)
    (propsHtml : list ElementViewModel) (localId : N) (itemsData : list JsVal) :
  fetch localId = Returns itemsData →
  (∀ first, head itemsData = Some first →
            truthy first = false ∨ entries first = []) →
  element_step num2str fetch propsHtml localId =
    (propsHtml ++ [unknown_card localId])%list.
Proof.
  intros Hf Hfirst.
  assert (or_unknown (fetched (fetch localId)) = unknown) as E.
  { rewrite Hf. unfold fetched.
    destruct itemsData as [|first rest]; [done|]. simpl.
    destruct (Hfirst first eq_refl) as [Ht|He].
    - by rewrite Ht.
    - destruct (truthy first); [|done]. unfold or_unknown. by rewrite He. }
  unfold element_step. by rewrite E.
Qed.

(** A selection that names only models that are not loaded is answered
    with the no-properties text: such models are passed over, and no
    fetch is made for them. *)
Theorem unloaded_models_are_skipped (models : gmap string (N → FetchResult))
    (modelIdMap : list (string * list N)) :
  modelIdMap ≠ [] →
  (∀ entry, entry ∈ modelIdMap → models !! entry.1 = None) →
  fetches_of models modelIdMap = [] ∧
  updatePropertiesPanel num2str models modelIdMap = NoProperties.
Proof.
  intros Hne Hun.
  assert (fetches_of models modelIdMap = []) as Hf.
  { clear Hne. induction modelIdMap as [|entry rest IH]; [done|].
    simpl. rewrite (Hun entry) by left. simpl.
    apply IH. intros e He. apply Hun. by right. }
  split; [done|]. unfold updatePropertiesPanel.
  rewrite bool_decide_eq_false_2 by (by destruct modelIdMap).
  by rewrite fetches_of_fold, Hf.
Qed.

(** The cards of a model's selected elements come in selection order,
    each under its own id, one for every element whose resolution did
    not raise and none for the others. *)
Theorem cards_in_selection_order (fetch : N → FetchResult) (ids : list N)
    (propsHtml : list ElementViewModel) :
  vm_localId <$> foldl (element_step num2str fetch) propsHtml ids =
    ((vm_localId <$> propsHtml)
     ++ filter (fun localId =>
                  is_Some (resolve num2str localId
                             (or_unknown (fetched (fetch localId)))))
               ids)%list.
Proof.
  revert propsHtml. induction ids as [|localId ids IH]; intros propsHtml; simpl.
  - by rewrite app_nil_r.
  - rewrite IH, filter_cons. unfold element_step.
    destruct (resolve num2str localId (or_unknown (fetched (fetch localId))))
      as [vm|] eqn:E.
    + rewrite decide_True by by eexists.
      apply resolve_name in E as [E _].
      rewrite fmap_app. simpl. rewrite E, <- app_assoc. done.
    + rewrite decide_False; [done|]. by intros [? ?].
Qed.

(** *** States of the panel under overlapping invocations *)

Variable models : gmap string (N → FetchResult).

Lemma commit_not_loading (propsHtml : list ElementViewModel) :
  commit propsHtml ≠ Loading.
Proof. unfold commit. by case_match. Qed.

Lemma step_consistent (ui : Ui) (e : Event) :
  consistent ui → consistent (step num2str models ui e).
Proof.
  intros [Hwf Hload]. destruct e as [modelIdMap|t]; simpl.
  - case_bool_decide as Hempty; [split; [done|discriminate]|].
    destruct (fetches_of models modelIdMap) as [|p pending] eqn:Ef.
    + split; [done|]. simpl. intros Hp. by apply commit_not_loading in Hp.
    + split; simpl.
      * intros t inv Hl. destruct (decide (t = ui_next ui)) as [->|Hne].
        -- rewrite lookup_insert_eq in Hl. injection Hl as <-. simpl. split; [done|lia].
        -- rewrite lookup_insert_ne in Hl by done.
           destruct (Hwf t inv Hl). split; [done|lia].
      * intros _ E. apply (f_equal (lookup (ui_next ui))) in E.
        by rewrite lookup_insert_eq, lookup_empty in E.
  - destruct (ui_running ui !! t) as [inv|] eqn:Er; [|done].
    destruct (inv_pending inv) as [|[fetch localId] rest] eqn:Ep; [done|].
    destruct rest as [|p rest]; split; simpl.
    + intros t' inv' Hl. destruct (decide (t' = t)) as [->|Hne].
      * by rewrite lookup_delete_eq in Hl.
      * rewrite lookup_delete_ne in Hl by done. by apply Hwf.
    + intros Hp. by apply commit_not_loading in Hp.
    + intros t' inv' Hl. destruct (decide (t' = t)) as [->|Hne].
      * rewrite lookup_insert_eq in Hl. injection Hl as <-. simpl.
        split; [done|]. by destruct (Hwf t inv Er).
      * rewrite lookup_insert_ne in Hl by done. by apply Hwf.
    + intros _ E. apply (f_equal (lookup t)) in E.
      by rewrite lookup_insert_eq, lookup_empty in E.
Qed.

Lemma run_consistent (events : list Event) :
  ∀ ui, consistent ui → consistent (run num2str models ui events).
Proof.
  induction events as [|e events IH]; intros ui H; [done|].
  apply IH. by apply step_consistent.
Qed.

Lemma idle_consistent : consistent idle.
Proof.
  split; [|discriminate]. intros t inv H. simpl in H.
  by rewrite lookup_empty in H.
Qed.

(** However selections and settling fetches interleave, the panel shows
    the loading text only while some invocation is still suspended at a
    fetch; every suspended invocation has a fetch in flight. *)
Theorem loading_means_pending (events : list Event) :
  let ui := run num2str models idle events in
  (ui_panel ui = Loading → ∃ t inv, ui_running ui !! t = Some inv) ∧
  (∀ t inv, ui_running ui !! t = Some inv → inv_pending inv ≠ []).
Proof.
  destruct (run_consistent events idle idle_consistent) as [Hwf Hload].
  split.
  - intros H. specialize (Hload H).
    destruct (map_choose _ Hload) as (t & inv & Hl). by exists t, inv.
  - intros t inv Hl. by destruct (Hwf t inv Hl).
Qed.

(** The loading text does not stay: from any state reached with the
    panel loading there is a suspended invocation whose remaining
    fetches, once settled, replace the text by cards or by the
    no-properties message. *)
Theorem loading_is_left (events : list Event) :
  let ui := run num2str models idle events in
  ui_panel ui = Loading →
  ∃ t n, ui_panel (run num2str models ui (replicate n (Settle t))) ≠ Loading.
Proof.
  intros ui H.
  destruct (run_consistent events idle idle_consistent) as [Hwf Hload].
  destruct (map_choose _ (Hload H)) as (t & [propsHtml pending] & Hl).
  destruct (Hwf _ _ Hl) as [Hne _]. simpl in Hne.
  exists t, (length pending).
  unfold ui. rewrite (run_to_completion num2str models pending Hne _ t propsHtml Hl).
  apply commit_not_loading.
Qed.

End ResolverMore.

(** ** More on ghost mode *)

Module GhostMore.
Import Ghost.

Lemma ghosted_twice (m : BIMMaterial) : ghosted (ghosted m) = ghosted m.
Proof. by destruct m as [c [col|col] tr op nu]. Qed.

Lemma ghost_fold_appearance (l : list ref) (r : ref) (m : BIMMaterial) :
  opted_out m = false →
  ∀ acc,
    acc.1 !! r = Some m ∨ acc.1 !! r = Some (ghosted m) →
    ((foldl ghost_step acc l).1 !! r = Some m ∨
     (foldl ghost_step acc l).1 !! r = Some (ghosted m)) ∧
    (r ∈ l → (foldl ghost_step acc l).1 !! r = Some (ghosted m)).
Proof.
  intros Hopt. induction l as [|r0 l IH]; intros acc Hacc; simpl.
  - split; [done|]. intros H. by apply elem_of_nil in H.
  - assert ((ghost_step acc r0).1 !! r = Some m ∨
            (ghost_step acc r0).1 !! r = Some (ghosted m)) as Hstep.
    { destruct (decide (r0 = r)) as [->|Hne].
      - destruct (GhostFacts.ghost_step_at acc r) as [-> _].
        destruct Hacc as [-> | ->]; simpl.
        + rewrite Hopt. by right.
        + unfold opted_out in *. simpl. rewrite Hopt, ghosted_twice. by right.
      - destruct (GhostFacts.ghost_step_other acc r0 r Hne) as [-> _]. done. }
    destruct (IH _ Hstep) as [Hany Hin]. split; [done|].
    intros Hr. apply elem_of_cons in Hr as [->|Hr]; [|by apply Hin].
    assert ((ghost_step acc r0).1 !! r0 = Some (ghosted m)) as Hg.
    { destruct (GhostFacts.ghost_step_at acc r0) as [-> _].
      destruct Hacc as [-> | ->]; simpl.
      - by rewrite Hopt.
      - unfold opted_out in *. simpl. by rewrite Hopt, ghosted_twice. }
    destruct (IH _ (or_intror Hg)) as [[H|H] _]; [|done].
    destruct (decide (r0 ∈ l)) as [Hl|Hl].
    + destruct (IH _ (or_intror Hg)) as [_ H']. by apply H'.
    + destruct (GhostFacts.ghost_fold_notin l r0 Hl (ghost_step acc r0)) as [-> _].
      done.
Qed.

(** After activation every listed material without the opt-out marker
    has the ghost appearance: white, transparent, opacity 0.1, flagged
    for update, its marker and shape as before.  This holds for any
    material list and any content of the snapshot map. *)
Theorem ghost_appearance (st : State) (r : ref) (m : BIMMaterial) :
  r ∈ materials st → heap st !! r = Some m → opted_out m = false →
  heap (setModelTransparent st) !! r = Some (ghosted m) ∧
  transparent (ghosted m) = true ∧ opacity (ghosted m) = n0_1 ∧
  needsUpdate (ghosted m) = true ∧
  read_hex (ghosted m) = 16777215%Z.
Proof.
  intros Hin Hm Hopt. split.
  - unfold setModelTransparent. cbn [heap].
    by apply (ghost_fold_appearance (materials st) r m Hopt
                (heap st, originalColors st) (or_introl Hm)).
  - by destruct m as [c [col|col] tr op nu].
Qed.

Lemma materials_setModelTransparent (st : State) :
  materials (setModelTransparent st) = materials st.
Proof. reflexivity. Qed.

(** Activation is not protected against being run twice: a second
    [setModelTransparent] before any restore overwrites each snapshot
    with the ghost appearance, and the following restore leaves the
    material white, transparent and at opacity 0.1.  Only the flag
    tested by [onGhost] keeps the original appearance recoverable. *)
Theorem double_activation_loses_original (st : State) (r : ref) (m : BIMMaterial) :
  NoDup (materials st) →
  r ∈ materials st → heap st !! r = Some m → opted_out m = false →
  originalColors (setModelTransparent (setModelTransparent st)) !! r =
    Some (snapshot (ghosted m)) ∧
  ∃ m', heap (restoreModelMaterials
                (setModelTransparent (setModelTransparent st))) !! r = Some m' ∧
        read_hex m' = 16777215%Z ∧ transparent m' = true ∧ opacity m' = n0_1.
Proof.
  intros Hnd Hin Hm Hopt.
  destruct (GhostFacts.ghost_lookup st r Hnd) as [Hh1 _].
  rewrite bool_decide_eq_true_2, Hm in Hh1 by done.
  cbn -[setModelTransparent] in Hh1. rewrite Hopt in Hh1.
  destruct (GhostFacts.ghost_lookup (setModelTransparent st) r) as [Hh2 Ho2];
    [by rewrite materials_setModelTransparent|].
  rewrite materials_setModelTransparent in Hh2, Ho2.
  rewrite bool_decide_eq_true_2, Hh1 in Hh2, Ho2 by done.
  cbn -[setModelTransparent] in Hh2, Ho2.
  assert (opted_out (ghosted m) = false) as Hopt' by done.
  rewrite Hopt' in Hh2, Ho2.
  split; [done|].
  exists (restored (snapshot (ghosted m)) (ghosted (ghosted m))). split.
  - by rewrite GhostFacts.restore_lookup, Ho2, Hh2.
  - by destruct m as [c [col|col] tr op nu].
Qed.

End GhostMore.

(** ** Tool management *)

Module ToolFacts.
Import Tools.

Lemma paint_data_tool (active : option string) (btn : Button) :
  data_tool (paint active btn) = data_tool btn.
Proof. unfold paint. by case_bool_decide. Qed.

Lemma paint_paint (a b : option string) (btn : Button) :
  paint a (paint b btn) = paint a btn.
Proof.
  unfold paint at 1 3. rewrite paint_data_tool. by case_bool_decide.
Qed.

Lemma setTool_activeTool (tool : option string) (st : State) :
  activeTool (setTool tool st) =
    if bool_decide (tool = activeTool st) then None else tool.
Proof.
  unfold setTool. case_bool_decide; [done|].
  repeat case_bool_decide; done.
Qed.

Lemma setTool_buttons (tool : option string) (st : State) :
  buttons (setTool tool st) = paint (activeTool (setTool tool st)) <$> buttons st.
Proof.
  rewrite setTool_activeTool. unfold setTool, updateToolButtons.
  case_bool_decide; [done|].
  repeat case_bool_decide; simpl; rewrite <- list_fmap_compose;
    apply list_fmap_ext; intros; apply paint_paint.
Qed.

Lemma setTool_flags (tool : option string) (st : State) :
  clipper_enabled (setTool tool st) =
    bool_decide (activeTool (setTool tool st) = Some "clipper") ∧
  length_enabled (setTool tool st) =
    bool_decide (activeTool (setTool tool st) = Some "length") ∧
  area_enabled (setTool tool st) =
    bool_decide (activeTool (setTool tool st) = Some "area") ∧
  highlighter_enabled (setTool tool st) =
    negb (clipper_enabled (setTool tool st) || length_enabled (setTool tool st)
          || area_enabled (setTool tool st)).
Proof.
  rewrite setTool_activeTool. unfold setTool.
  case_bool_decide as Ht; [done|].
  repeat case_bool_decide; simplify_eq; done.
Qed.

(** Whatever the state and the argument, after [setTool] the clipper,
    the length measurer and the area measurer are enabled exactly when
    the active tool is theirs -- so never two at once -- and the
    highlighter is enabled exactly when none of them is. *)
Theorem setTool_one_tool_at_a_time (tool : option string) (st : State) :
  let st' := setTool tool st in
  (clipper_enabled st' = true ↔ activeTool st' = Some "clipper") ∧
  (length_enabled st' = true ↔ activeTool st' = Some "length") ∧
  (area_enabled st' = true ↔ activeTool st' = Some "area") ∧
  highlighter_enabled st' =
    negb (clipper_enabled st' || length_enabled st' || area_enabled st') ∧
  (clipper_enabled st' && length_enabled st' = false) ∧
  (clipper_enabled st' && area_enabled st' = false) ∧
  (length_enabled st' && area_enabled st' = false).
Proof.
  intros st'. destruct (setTool_flags tool st) as (Hc & Hl & Ha & Hh).
  fold st' in Hc, Hl, Ha, Hh. rewrite Hc, Hl, Ha in *.
  repeat split; try apply bool_decide_eq_true_1; try apply bool_decide_eq_true_2;
    try done;
    repeat case_bool_decide; try done; congruence.
Qed.

(** After [setTool] a tool button is highlighted exactly when it is the
    button of the active tool, and all buttons are plain when no tool
    is active; the buttons themselves stay as they are. *)
Theorem setTool_highlights_active_button (tool : option string) (st : State) :
  let st' := setTool tool st in
  data_tool <$> buttons st' = data_tool <$> buttons st ∧
  ∀ btn, btn ∈ buttons st' →
    (background btn = "#bcf124" ↔ activeTool st' = Some (data_tool btn)) ∧
    (background btn = "" ↔ activeTool st' ≠ Some (data_tool btn)) ∧
    (color btn = "#1a1d23" ↔ activeTool st' = Some (data_tool btn)).
Proof.
  intros st'. unfold st'. rewrite setTool_buttons. split.
  - rewrite <- list_fmap_compose. apply list_fmap_ext.
    intros i btn _. apply paint_data_tool.
  - intros btn Hin. apply list_elem_of_fmap in Hin as (b0 & -> & _).
    unfold paint. case_bool_decide as E; simpl; repeat split; try done;
      try congruence.
Qed.

(** A double click, and the Delete or Backspace key, reach the tool
    that is active after [setTool] and no other: at most one call is
    made, and none when no tool is active. *)
Theorem clicks_reach_active_tool (tool : option string) (st : State) :
  let st' := setTool tool st in
  ondblclick st' =
    (if bool_decide (activeTool st' = Some "clipper") then [ClipperCreate]
     else if bool_decide (activeTool st' = Some "length") then [LengthCreate]
     else if bool_decide (activeTool st' = Some "area") then [AreaCreate]
     else []) ∧
  (onkeydown "Delete" st').1 =
    (if bool_decide (activeTool st' = Some "clipper") then [ClipperDelete]
     else if bool_decide (activeTool st' = Some "length") then [LengthDelete]
     else if bool_decide (activeTool st' = Some "area") then [AreaDelete]
     else []) ∧
  (onkeydown "Backspace" st').1 = (onkeydown "Delete" st').1 ∧
  (List.length (ondblclick st') ≤ 1)%nat.
Proof.
  intros st'. destruct (setTool_flags tool st) as (Hc & Hl & Ha & _).
  fold st' in Hc, Hl, Ha.
  unfold ondblclick, onkeydown. simpl. rewrite Hc, Hl, Ha.
  repeat case_bool_decide; simpl; repeat split; try done; try lia; congruence.
Qed.

(** Choosing the active tool again switches it off, and the Escape key
    switches off whatever is active: both end with no tool enabled, the
    highlighter enabled and every button plain.  Choosing another tool
    makes that one the active tool directly. *)
Theorem setTool_toggles (tool : option string) (st : State) :
  (activeTool st = tool → idle (setTool tool st)) ∧
  idle (onkeydown "Escape" st).2 ∧
  (activeTool st ≠ tool → activeTool (setTool tool st) = tool).
Proof.
  assert (∀ t, activeTool (setTool t st) = None → idle (setTool t st)) as Hidle.
  { intros t Hn. destruct (setTool_flags t st) as (Hc & Hl & Ha & Hh).
    rewrite Hn in Hc, Hl, Ha. rewrite Hc, Hl, Ha in Hh.
    repeat split; try done.
    - rewrite setTool_buttons, Hn in H.
      apply list_elem_of_fmap in H as (b0 & -> & _). done.
    - rewrite setTool_buttons, Hn in H.
      apply list_elem_of_fmap in H as (b0 & -> & _). done. }
  split; [|split].
  - intros <-. apply Hidle. rewrite setTool_activeTool.
    by rewrite bool_decide_eq_true_2.
  - simpl. apply Hidle. rewrite setTool_activeTool. by case_bool_decide.
  - intros Hne. rewrite setTool_activeTool.
    rewrite bool_decide_eq_false_2; [done|congruence].
Qed.

End ToolFacts.

(** ** Names under which a model is loaded *)

Module HostFacts.
Import Host.

Lemma length_append (a b : string) :
  String.length (a ++ b) = String.length a + String.length b.
Proof. induction a as [|x a IH]; [done|]. rewrite append_cons. simpl. by rewrite IH. Qed.

Lemma strip_ifc_unfold (s : string) :
  strip_ifc s =
    if String.eqb s ".ifc" || String.eqb s ".IFC" then ""
    else match s with
         | EmptyString => ""
         | String c s' => String c (strip_ifc s')
         end.
Proof. by destruct s. Qed.

Lemma strip_ifc_long (c : Ascii.ascii) (s ext : string) :
  String.length ext = 4 →
  strip_ifc (String c (s ++ ext)) = String c (strip_ifc (s ++ ext)).
Proof.
  intros Hl. rewrite (strip_ifc_unfold (String c (s ++ ext))).
  assert (∀ t, String.length t = 4 → String.eqb (String c (s ++ ext)) t = false) as Hne.
  { intros t Ht. apply String.eqb_neq. intros E.
    apply (f_equal String.length) in E. simpl in E.
    rewrite length_append in E. lia. }
  by rewrite !Hne.
Qed.

Lemma strip_ifc_append (s ext : string) :
  ext = ".ifc" ∨ ext = ".IFC" → strip_ifc (s ++ ext) = s.
Proof.
  intros Hext.
  assert (String.length ext = 4) as Hl by (by destruct Hext as [-> | ->]).
  induction s as [|c s IH]; [by destruct Hext as [-> | ->]|].
  by rewrite append_cons, strip_ifc_long, IH.
Qed.

(** The host path removes the extension and nothing else: a file name
    ending in [.ifc] or [.IFC] loses exactly these four characters,
    whatever precedes them, and any other name is kept whole. *)
Theorem strip_ifc_removes_extension (s : string) :
  strip_ifc (s ++ ".ifc") = s ∧
  strip_ifc (s ++ ".IFC") = s ∧
  (strip_ifc s = s ∨ s = strip_ifc s ++ ".ifc" ∨ s = strip_ifc s ++ ".IFC").
Proof.
  split; [|split].
  - apply strip_ifc_append. by left.
  - apply strip_ifc_append. by right.
  - induction s as [|c s IH]; [by left|].
    rewrite strip_ifc_unfold.
    destruct (String.eqb (String c s) ".ifc") eqn:E1.
    { apply String.eqb_eq in E1. rewrite E1. right; by left. }
    destruct (String.eqb (String c s) ".IFC") eqn:E2.
    { apply String.eqb_eq in E2. rewrite E2. right; by right. }
    simpl. destruct IH as [IH|[IH|IH]].
    + left. by rewrite IH.
    + right; left. by rewrite append_cons, <- IH.
    + right; right. by rewrite append_cons, <- IH.
Qed.

Lemma substring_all (s : string) : String.substring 0 (String.length s) s = s.
Proof. induction s as [|c s IH]; [done|]. simpl. by rewrite IH. Qed.

Lemma remove_first_unfold (pattern s : string) :
  remove_first pattern s =
    if String.prefix pattern s
    then String.substring (String.length pattern)
                          (String.length s - String.length pattern) s
    else match s with
         | EmptyString => ""
         | String c s' => String c (remove_first pattern s')
         end.
Proof. by destruct s. Qed.

Lemma substring_skip (p rest : string) (n : nat) :
  String.substring (String.length p) n (p ++ rest) = String.substring 0 n rest.
Proof. induction p as [|c p IH]; [done|]. rewrite append_cons. simpl. apply IH. Qed.

Lemma remove_first_here (rest : string) :
  remove_first ".ifc" (".ifc" ++ rest) = rest.
Proof.
  rewrite remove_first_unfold, prefix_append, substring_skip, length_append.
  replace (String.length ".ifc" + String.length rest - String.length ".ifc")
    with (String.length rest) by lia.
  apply substring_all.
Qed.

(** With a dot next, [.ifc] can start inside [stem] only if all of it
    lies inside [stem]. *)
Lemma prefix_ifc_inside (stem tail : string) :
  stem ≠ "" →
  String.prefix ".ifc" (stem ++ "." ++ tail) = String.prefix ".ifc" stem.
Proof.
  intros Hne.
  destruct stem as [|a [|b [|c [|d stem]]]]; [done|..];
    rewrite ?append_cons, ?append_nil; simpl;
    repeat (match goal with
            | |- context [Ascii.ascii_dec ?x ?y] =>
                destruct (Ascii.ascii_dec x y); try discriminate; subst
            end); try done.
  all: by destruct stem.
Qed.

Lemma remove_first_skips (stem tail : string) :
  includes stem ".ifc" = false →
  remove_first ".ifc" (stem ++ "." ++ tail) =
    stem ++ remove_first ".ifc" ("." ++ tail).
Proof.
  induction stem as [|c stem IH]; intros Hinc; [done|].
  rewrite includes_cons in Hinc. apply orb_false_iff in Hinc as [Hp Hinc].
  rewrite (append_cons c stem), remove_first_unfold.
  rewrite <- (append_cons c stem), prefix_ifc_inside, Hp by done.
  rewrite (append_cons c stem). by rewrite IH.
Qed.

(** The upload path takes out the first [.ifc] of the file name: for a
    name [stem.ifc] whose stem has no [.ifc] inside that is the
    extension, and the model gets the same name as on the host path.
    An upper-case extension is not recognised there: [stem.IFC] keeps
    its extension when uploaded and loses it when sent by the host. *)
Theorem upload_and_host_names (stem : string) :
  includes stem ".ifc" = false →
  remove_first ".ifc" (stem ++ ".ifc") = stem ∧
  remove_first ".ifc" (stem ++ ".ifc") = strip_ifc (stem ++ ".ifc") ∧
  remove_first ".ifc" (stem ++ ".IFC") = stem ++ ".IFC" ∧
  strip_ifc (stem ++ ".IFC") = stem.
Proof.
  intros H.
  assert (remove_first ".ifc" (stem ++ ".ifc") = stem) as E1.
  { change (stem ++ ".ifc") with (stem ++ "." ++ "ifc").
    rewrite remove_first_skips by done.
    change ("." ++ "ifc") with (".ifc" ++ "").
    rewrite remove_first_here.
    clear H. induction stem as [|c stem IH]; [done|].
    rewrite (append_cons c stem). by f_equal. }
  assert (strip_ifc (stem ++ ".ifc") = stem) as E2
    by (apply strip_ifc_append; by left).
  assert (strip_ifc (stem ++ ".IFC") = stem) as E3
    by (apply strip_ifc_append; by right).
  split; [done|]. split; [by rewrite E1, E2|]. split; [|done].
  change (stem ++ ".IFC") with (stem ++ "." ++ "IFC").
  by rewrite remove_first_skips.
Qed.

(** The first occurrence is removed wherever it is, not only at the
    end of the name. *)
Theorem upload_name_removes_first_occurrence (stem rest : string) :
  includes stem ".ifc" = false →
  remove_first ".ifc" (stem ++ ".ifc" ++ rest) = stem ++ rest.
Proof.
  intros H.
  change (".ifc" ++ rest) with ("." ++ "ifc" ++ rest).
  rewrite remove_first_skips by done.
  change ("." ++ "ifc" ++ rest) with (".ifc" ++ rest).
  by rewrite remove_first_here.
Qed.

Section ListenerFacts.

Variable atob : JsVal → option string.
Variable loads : list N → string → bool.

(** The message listener answers a [loadIFC] message with exactly one
    [ifcLoaded] reply and any other message with none.  The reply
    reports success exactly when the data decoded, the file name was a
    string and the load resolved; the loader is called at most once,
    with the decoded bytes and the name without its extension.  Only a
    null or undefined message makes the listener raise. *)
Theorem onmessage_replies_once (eventData : JsVal) :
  (onmessage atob loads eventData = None ↔
   eventData = JNull ∨ eventData = JUndef) ∧
  ∀ effects,
    onmessage atob loads eventData = Some effects →
    (str_is "loadIFC" (prop eventData "type") = false → effects = []) ∧
    (str_is "loadIFC" (prop eventData "type") = true →
     ∃ success error,
       filter (fun e => is_reply e = true) effects = [PostLoaded success error] ∧
       (success = true ↔ error = None) ∧
       (success = true ↔
        ∃ binaryString name,
          atob (prop eventData "data") = Some binaryString ∧
          prop eventData "fileName" = JStr name ∧
          loads (char_codes binaryString) (strip_ifc name) = true) ∧
       ∀ bytes name',
         Load bytes name' ∈ effects →
         effects = [Load bytes name'; PostLoaded success error] ∧
         ∃ binaryString name,
           atob (prop eventData "data") = Some binaryString ∧
           prop eventData "fileName" = JStr name ∧
           bytes = char_codes binaryString ∧ name' = strip_ifc name).
Proof.
  split.
  - unfold onmessage. destruct eventData; simpl; try (split; [done|by intros [?|?]]);
      try (split; [intros _; by (left + right)|done]);
      (split; [|by intros [?|?]]); repeat case_match; discriminate.
  - intros effects H. unfold onmessage in H.
    destruct (prop_chk eventData "type") as [ty|] eqn:Et; [|discriminate].
    assert (ty = prop eventData "type") as ->.
    { destruct eventData; simpl in Et |- *; congruence. }
    simpl in H.
    destruct (str_is "loadIFC" (prop eventData "type")) eqn:Es.
    2:{ injection H as <-. split; [done|discriminate]. }
    split; [discriminate|]. intros _.
    assert (∀ s e bytes name', Load bytes name' ∉ [PostLoaded s e]) as Hnoload.
    { intros s e bytes name' Hin.
      apply elem_of_cons in Hin as [Hin|Hin]; [discriminate|].
      by apply elem_of_nil in Hin. }
    destruct (atob (prop eventData "data")) as [binaryString|] eqn:Ea.
    2:{ injection H as <-. exists false, (Some InvalidBase64).
        split; [done|]. split; [done|].
        split; [split; [discriminate|by intros (? & ? & ? & _)]|].
        intros bytes name' Hin. by apply Hnoload in Hin. }
    destruct (prop eventData "fileName") as [| |b|n|name|l|m] eqn:Ef;
      try (injection H as <-; exists false, (Some NoFileName);
           split; [done|]; split; [done|];
           split; [split; [discriminate|by intros (? & ? & ? & ? & _)]|];
           intros bytes name' Hin; by apply Hnoload in Hin).
    destruct (loads (char_codes binaryString) (strip_ifc name)) eqn:El;
      injection H as <-.
    + exists true, None.
      split; [done|]. split; [done|].
      split; [split; [intros _; by exists binaryString, name|done]|].
      intros bytes name' Hin.
      apply elem_of_cons in Hin as [[= -> ->]|Hin]; [|by apply Hnoload in Hin].
      split; [done|]. by exists binaryString, name.
    + exists false, (Some LoadRejected).
      split; [done|]. split; [done|].
      split; [split; [discriminate|]|].
      * intros (b' & n' & [= <-] & [= <-] & Hl). congruence.
      * intros bytes name' Hin.
        apply elem_of_cons in Hin as [[= -> ->]|Hin]; [|by apply Hnoload in Hin].
        split; [done|]. by exists binaryString, name.
Qed.

End ListenerFacts.

End HostFacts.

(** ** The list of loaded models *)

Module ModelFacts.
Import Models.

Lemma filter_all {A : Type} (P : A → Prop) `{∀ x, Decision (P x)} (l : list A) :
  (∀ x, x ∈ l → P x) → filter P l = l.
Proof.
  induction l as [|x l IH]; intros Hall; [done|].
  rewrite filter_cons_True by (apply Hall; left).
  f_equal. apply IH. intros y Hy. apply Hall. by right.
Qed.

Section JsMapFacts.
Context {V : Type}.
Implicit Types (m : list (string * V)) (k : string) (v : V).


Lemma map_set_keys m k v :
  (map_set k v m).*1 = if decide (k ∈ m.*1) then m.*1 else (m.*1 ++ [k])%list.
Proof.
  induction m as [|[k' v'] m IH]; cbn [map_set].
  - rewrite decide_False; [done|]. intros H. by apply elem_of_nil in H.
  - rewrite (fmap_cons fst (k', v') m). cbn [fst].
    destruct (String.eqb_spec k' k) as [->|Hne].
    + rewrite fmap_cons. cbn [fst]. rewrite decide_True; [done|left].
    + rewrite fmap_cons, IH. cbn [fst].
      destruct (decide (k ∈ m.*1)) as [Hin|Hin].
      * rewrite decide_True; [done|by right].
      * rewrite decide_False; [done|].
        intros H. apply elem_of_cons in H as [->|H]; done.
Qed.

Lemma map_set_NoDup m k v : NoDup m.*1 → NoDup (map_set k v m).*1.
Proof.
  intros H. rewrite map_set_keys. case_decide as Hin; [done|].
  apply NoDup_app. split; [done|]. split.
  - intros x Hx Hk. apply elem_of_cons in Hk as [->|Hk]; [done|].
    by apply elem_of_nil in Hk.
  - apply NoDup_singleton.
Qed.

Lemma map_get_set m k v k' :
  map_get k' (map_set k v m) = if decide (k' = k) then Some v else map_get k' m.
Proof.
  induction m as [|[k0 v0] m IH]; cbn [map_set map_get].
  - destruct (String.eqb_spec k k') as [->|Hne].
    + by rewrite decide_True.
    + rewrite decide_False; [done|congruence].
  - destruct (String.eqb_spec k0 k) as [->|Hne]; cbn [map_get].
    + destruct (String.eqb_spec k k') as [->|Hne'].
      * by rewrite decide_True.
      * rewrite decide_False; [done|congruence].
    + destruct (String.eqb_spec k0 k') as [->|Hne'].
      * rewrite decide_False; [done|congruence].
      * apply IH.
Qed.

Lemma map_delete_keys m k :
  NoDup m.*1 → (map_delete k m).*1 = filter (fun x => x ≠ k) m.*1.
Proof.
  induction m as [|[k' v'] m IH]; intros Hnd; cbn [map_delete]; [done|].
  rewrite fmap_cons in Hnd. apply NoDup_cons in Hnd as [Hfresh Hnd].
  rewrite (fmap_cons fst (k', v') m). cbn [fst] in *.
  destruct (String.eqb_spec k' k) as [->|Hne].
  - rewrite filter_cons_False by (intros H; by apply H).
    symmetry. apply filter_all. intros x Hx ->. done.
  - rewrite filter_cons_True by done. rewrite fmap_cons. cbn [fst].
    f_equal. by apply IH.
Qed.


Lemma map_delete_NoDup m k : NoDup m.*1 → NoDup (map_delete k m).*1.
Proof.
  intros H. rewrite map_delete_keys by done. by apply NoDup_filter.
Qed.

End JsMapFacts.

(** What the list panel shows when it is in step with [loadedModels]. *)
Lemma render_cases (loaded : list (string * Model)) :
  (loaded = [] ∧ render loaded = NoModels) ∨
  (loaded ≠ [] ∧ render loaded = Rows loaded.*1).
Proof. destruct loaded; [by left|by right]. Qed.

Lemma updateModelsList_shown (st : State) :
  loadedModels (updateModelsList st) = loadedModels st ∧
  fragments_list (updateModelsList st) = fragments_list st ∧
  calls (updateModelsList st) = calls st ∧
  modelsListContainer (updateModelsList st) =
    (fun _ => render (loadedModels st)) <$> modelsListContainer st.
Proof.
  unfold updateModelsList.
  destruct (modelsListContainer st) eqn:E; simpl; by rewrite ?E.
Qed.

Lemma step_in_step (st : State) (e : Event) :
  (NoDup (loadedModels st).*1 ∧
   ∀ panel, modelsListContainer st = Some panel → panel = render (loadedModels st)) →
  NoDup (loadedModels (step st e)).*1 ∧
  ∀ panel, modelsListContainer (step st e) = Some panel →
           panel = render (loadedModels (step st e)).
Proof.
  intros [Hnd Hp]. destruct e as [model|model|attr|]; simpl.
  - done.
  - unfold onItemSet.
    destruct (updateModelsList_shown
                {| loadedModels := map_set (modelId model) model (loadedModels st);
                   fragments_list := fragments_list st;
                   modelsListContainer := modelsListContainer st;
                   calls := (calls st ++ [FitCamera (object model)])%list |})
      as (-> & _ & _ & ->). simpl.
    split; [by apply map_set_NoDup|].
    intros panel H. destruct (modelsListContainer st); simpl in H; congruence.
  - unfold onDeleteClick.
    destruct (negb (String.eqb attr "")); [|done].
    destruct (map_get attr (loadedModels st)) as [model|]; [|done].
    destruct (updateModelsList_shown
                {| loadedModels := map_delete attr (loadedModels st);
                   fragments_list := map_delete attr (fragments_list st);
                   modelsListContainer := modelsListContainer st;
                   calls := (calls st ++ [SceneRemove (object model)])%list |})
      as (-> & _ & _ & ->). simpl.
    split; [by apply map_delete_NoDup|].
    intros panel H. destruct (modelsListContainer st); simpl in H; congruence.
  - split; [done|]. by intros panel [= <-].
Qed.

Lemma run_in_step (events : list Event) :
  ∀ st,
    (NoDup (loadedModels st).*1 ∧
     ∀ panel, modelsListContainer st = Some panel →
              panel = render (loadedModels st)) →
    NoDup (loadedModels (foldl step st events)).*1 ∧
    ∀ panel, modelsListContainer (foldl step st events) = Some panel →
             panel = render (loadedModels (foldl step st events)).
Proof.
  induction events as [|e events IH]; intros st Hst; [done|].
  simpl. apply IH. by apply step_in_step.
Qed.

(** Whatever models are stored, reloaded and deleted, and whenever the
    layout is mounted, the list panel is never stale: once mounted it
    shows one row per loaded model, in the order the models were first
    stored and without repetition, or the no-models text when none is
    loaded. *)
Theorem models_list_in_step (events : list Event) :
  let st := foldl step initial events in
  NoDup (loadedModels st).*1 ∧
  ∀ panel, modelsListContainer st = Some panel →
    (loadedModels st = [] ∧ panel = NoModels) ∨
    (loadedModels st ≠ [] ∧ panel = Rows (loadedModels st).*1).
Proof.
  intros st.
  destruct (run_in_step events initial) as [Hnd Hp].
  { split; [constructor|discriminate]. }
  split; [done|]. intros panel H. rewrite (Hp panel H). apply render_cases.
Qed.


(** Storing a model under an id that is already loaded replaces the
    model in place: the rows of the list and their order do not
    change.  Under a new id the model is appended as the last row. *)
Theorem reload_keeps_row (model : Model) (st : State) :
  loadedModels (onItemSet model st) =
    map_set (modelId model) model (loadedModels st) ∧
  map_get (modelId model) (loadedModels (onItemSet model st)) = Some model ∧
  (modelId model ∈ (loadedModels st).*1 →
   (loadedModels (onItemSet model st)).*1 = (loadedModels st).*1) ∧
  (modelId model ∉ (loadedModels st).*1 →
   (loadedModels (onItemSet model st)).*1 =
     ((loadedModels st).*1 ++ [modelId model])%list).
Proof.
  unfold onItemSet.
  destruct (updateModelsList_shown
              {| loadedModels := map_set (modelId model) model (loadedModels st);
                 fragments_list := fragments_list st;
                 modelsListContainer := modelsListContainer st;
                 calls := (calls st ++ [FitCamera (object model)])%list |})
    as (-> & _ & _ & _). simpl.
  split; [done|]. split; [|split].
  - rewrite map_get_set. by rewrite decide_True.
  - intros H. rewrite map_set_keys. by rewrite decide_True.
  - intros H. rewrite map_set_keys. by rewrite decide_False.
Qed.

End ModelFacts.

(** ** Further worked instances *)






Lemma empty_fetch_renders_unknown_witness :
  element_step sample_num2str (fun _ => Returns [JObj ∅]) [] 7 = [unknown_card 7].
Proof.
  apply (empty_fetch_renders_unknown sample_num2str (fun _ => Returns [JObj ∅]) [] 7
           [JObj ∅] eq_refl).
  intros first [= <-]. right. vm_compute. reflexivity.
Defined.

Lemma unloaded_models_are_skipped_witness :
  updatePropertiesPanel sample_num2str sample_models [("garage", [1%N; 2%N])]
    = NoProperties.
Proof.
  apply (unloaded_models_are_skipped sample_num2str sample_models
           [("garage", [1%N; 2%N])]); [discriminate|].
  intros entry He. apply elem_of_cons in He as [->|He];
    [vm_compute; reflexivity|by apply elem_of_nil in He].
Defined.

Lemma formatQuantitySets_returns_witness :
  is_Some (formatQuantitySets [qto_wall]).
Proof.
  apply (formatQuantitySets_returns [qto_wall]).
  intros pset q Hp Hq.
  apply elem_of_cons in Hp as [->|Hp]; [|by apply elem_of_nil in Hp].
  vm_compute in Hq.
  repeat (apply elem_of_cons in Hq as [->|Hq];
          [first [left; vm_compute; reflexivity
                 |right; eexists; vm_compute; reflexivity]|]).
  by apply elem_of_nil in Hq.
Defined.


Lemma loading_is_left_witness :
  ∃ t n,
    ui_panel (run sample_num2str sample_models
                (run sample_num2str sample_models idle [Select selection_A])
                (replicate n (Settle t))) ≠ Loading.
Proof.
  apply (loading_is_left sample_num2str sample_models [Select selection_A]).
  vm_compute. reflexivity.
Defined.

Lemma ghost_appearance_witness :
  Ghost.heap (Ghost.setModelTransparent sample_materials) !! 0%nat
    = Some (Ghost.ghosted red_material).
Proof.
  apply (GhostMore.ghost_appearance sample_materials 0%nat red_material).
  - by_compute.
  - vm_compute. reflexivity.
  - reflexivity.
Defined.

Lemma double_activation_loses_original_witness :
  Ghost.originalColors
    (Ghost.setModelTransparent (Ghost.setModelTransparent sample_materials)) !! 0%nat
    = Some (Ghost.snapshot (Ghost.ghosted red_material)).
Proof.
  apply (GhostMore.double_activation_loses_original sample_materials 0%nat red_material).
  - by_compute.
  - by_compute.
  - vm_compute. reflexivity.
  - reflexivity.
Defined.

Lemma upload_and_host_names_witness :
  Host.remove_first ".ifc" "house.ifc" = "house" ∧
  Host.remove_first ".ifc" "house.IFC" = "house.IFC" ∧
  Host.strip_ifc "house.IFC" = "house".
Proof.
  destruct (HostFacts.upload_and_host_names "house") as (H1 & _ & H3 & H4).
  - vm_compute. reflexivity.
  - split; [exact H1|]. split; [exact H3|exact H4].
Defined.

Lemma upload_name_removes_first_occurrence_witness :
  Host.remove_first ".ifc" "plan.ifc.backup.ifc" = "plan.backup.ifc".
Proof.
  apply (HostFacts.upload_name_removes_first_occurrence "plan" ".backup.ifc").
  vm_compute. reflexivity.
Defined.

